(** * Streaming audio engine: effects graph, playback scheduler,
      connection manager and prompt-update throttler.

    Shallow embedding of [AudioEffects] (the effects graph) and of
    [LiveMusicHelper] (scheduler, session life cycle, recording tap).

    Number model.  JavaScript numbers are IEEE doubles; here they are
    idealised as exact numbers: reals in [AudioEffects] (its cutoff mapping
    needs a power with a real exponent), rationals in [LiveMusicHelper]
    (where every definition evaluates), integers for the reconnect counter
    and the back-off delay in milliseconds. *)

From Stdlib Require Import ZArith QArith Qminmax Reals Psatz Bool List String.
From stdpp Require Import gmap strings.
Import ListNotations.

(** ** The effects graph ([AudioEffects]) *)

Module AudioEffects.
Local Open Scope R_scope.

(** The audio parameters the setters automate. *)
Inductive Param :=
| PannerPan
| FilterFrequency
| FilterQ
| DelayWetGain
| DelayTime
| DelayFeedbackGain
| ReverbWetGain
| EightDDryGain
| EightDWetGain.

(** Nodes whose connections are changed after construction. *)
Inductive Node :=
| Input
| MonoMerger
| Filter
| Lfo
| LfoGain
| PanParam.

(** What a method asks of the Web Audio platform, in program order. *)
Inductive Call :=
| SetTargetAtTime (p : Param) (target startTime timeConstant : R)
| LinearRampToValueAtTime (p : Param) (value endTime : R)
| CancelScheduledValues (p : Param) (cancelTime : R)
| DisconnectAll (n : Node)
| Connect (src dst : Node)
| Disconnect (src dst : Node)
| CreateOscillator (frequency : R)
| OscillatorStart
| OscillatorStop (when : R).

(** The mutable fields of the class, with the context's sample rate. *)
Record State := mkState {
  sampleRate : R;
  is8DEnabled : bool;
  isMono : bool;
  lfo : bool   (* [this.lfo !== null] *)
}.

Definition initial (rate : R) : State :=
  {| sampleRate := rate; is8DEnabled := false; isMono := false; lfo := false |}.

(** Every method takes the state and [audioContext.currentTime] and returns
    the new state with the platform calls it made. *)
Definition Method := State -> R -> State * list Call.

Definition setPan (value : R) : Method := fun st now =>
  if is8DEnabled st then (st, [])
  else (st, [SetTargetAtTime PannerPan value now 0.05]).

Definition monoMergerInputs : nat := 1.

Definition setMono (mono : bool) : Method := fun st _ =>
  if Bool.eqb mono (isMono st) then (st, [])
  else
    let st' := {| sampleRate := sampleRate st; is8DEnabled := is8DEnabled st;
                  isMono := mono; lfo := lfo st |} in
    if mono then
      (st', [DisconnectAll Input; Connect Input MonoMerger; Connect MonoMerger Filter])
    else
      (st', [DisconnectAll Input]
            ++ (if (0 <? monoMergerInputs)%nat then [Disconnect MonoMerger Filter] else [])
            ++ [Connect Input Filter]).

Definition FADE_TIME : R := 0.2.

Definition toggle8D (enabled : bool) : Method := fun st now =>
  if Bool.eqb (is8DEnabled st) enabled then (st, [])
  else if enabled then
    ({| sampleRate := sampleRate st; is8DEnabled := true;
        isMono := isMono st; lfo := true |},
     [LinearRampToValueAtTime EightDDryGain 0 (now + FADE_TIME);
      LinearRampToValueAtTime EightDWetGain 1 (now + FADE_TIME)]
     ++ (if lfo st then []
         else [CreateOscillator 0.1; Connect Lfo LfoGain;
               Connect LfoGain PanParam; OscillatorStart]))
  else
    ({| sampleRate := sampleRate st; is8DEnabled := false;
        isMono := isMono st; lfo := false |},
     [LinearRampToValueAtTime EightDDryGain 1 (now + FADE_TIME);
      LinearRampToValueAtTime EightDWetGain 0 (now + FADE_TIME)]
     ++ (if lfo st then [OscillatorStop (now + FADE_TIME); DisconnectAll Lfo] else [])
     ++ [CancelScheduledValues PannerPan now;
         SetTargetAtTime PannerPan 0 (now + FADE_TIME) 0.1]).

(** [Math.pow] with a positive base. *)
Definition Math_pow (base exponent : R) : R := Rpower base exponent.

Definition cutoffFrequency (rate value : R) : R :=
  let minFreq := 40 in
  let maxFreq := rate / 2 in
  minFreq * Math_pow (maxFreq / minFreq) value.

Definition setFilterCutoff (value : R) : Method := fun st now =>
  (st, [SetTargetAtTime FilterFrequency (cutoffFrequency (sampleRate st) value) now 0.05]).

Definition resonanceQ (value : R) : R :=
  let minQ := 0.1 in
  let maxQ := 20 in
  minQ + value * (maxQ - minQ).

Definition setFilterResonance (value : R) : Method := fun st now =>
  (st, [SetTargetAtTime FilterQ (resonanceQ value) now 0.05]).

Definition setDelay (value : R) : Method := fun st now =>
  (st, [SetTargetAtTime DelayWetGain value now 0.05]).

Definition setReverb (value : R) : Method := fun st now =>
  (st, [SetTargetAtTime ReverbWetGain value now 0.05]).

Definition setDelayTime (value : R) : Method := fun st now =>
  (st, [SetTargetAtTime DelayTime value now 0.05]).

Definition setDelayFeedback (value : R) : Method := fun st now =>
  (st, [SetTargetAtTime DelayFeedbackGain value now 0.05]).

(** The clamp the documentation speaks of, for comparison with the setters:
    a setter clamps its input to [[lo, hi]] when replacing the input by the
    clamped one changes nothing. *)
Definition clamp (lo hi v : R) : R := Rmax lo (Rmin hi v).

Definition clampsInput (lo hi : R) (setter : R -> Method) : Prop :=
  forall v st now, setter v st now = setter (clamp lo hi v) st now.

End AudioEffects.

(** ** The update throttler ([throttle]) *)

Module Throttle.

(** Modelled from the spec: the [throttle] utility imported by
    [LiveMusicHelper] (utils/throttle), which lives outside the
    modules embedded here.  The specification describes it as a trailing-edge
    throttle with latest-value capture: a call remembers its arguments,
    replacing those of an earlier call of the same window; the first call
    of a window arms one timer of the given delay; when the timer fires
    the wrapped function runs once, on the remembered arguments. *)
Record State (A : Type) := mkState {
  pending : option A;   (* arguments of the most recent call, not yet delivered *)
  armed : bool          (* a timer of the current window is running *)
}.
Arguments mkState {A}.
Arguments pending {A}.
Arguments armed {A}.

Definition idle {A : Type} : State A := {| pending := None; armed := false |}.

(** Modelled from the spec: a call of the throttled function.  The result
    says whether a timer has to be armed. *)
Definition call {A : Type} (args : A) (st : State A) : State A * bool :=
  ({| pending := Some args; armed := true |}, negb (armed st)).

(** Modelled from the spec: the timer of the window fires.  The result is the
    argument the wrapped function is run on, if any call is pending. *)
Definition fire {A : Type} (st : State A) : State A * option A :=
  (idle, pending st).

End Throttle.

(** ** The scheduler and connection manager ([LiveMusicHelper]) *)

Module LiveMusicHelper.
Local Open Scope Q_scope.

Inductive PlaybackState := stopped | playing | loading | paused.

Definition PlaybackState_eqb (a b : PlaybackState) : bool :=
  match a, b with
  | stopped, stopped | playing, playing | loading, loading | paused, paused => true
  | _, _ => false
  end.

(** A prompt as the helper reads it. *)
Record Prompt := mkPrompt {
  promptId : string;
  text : string;
  weight : Q;
  cc : Z
}.

(** [Map<string, Prompt>]: keys in insertion order. *)
Definition PromptMap := list (string * Prompt).

Definition values (m : PromptMap) : list Prompt := map snd m.

(** A decoded [AudioBuffer]: at least one frame, at a positive rate. *)
Record AudioBuffer := mkAudioBuffer {
  frames : positive;
  bufferSampleRate : positive
}.

Definition duration (b : AudioBuffer) : Q :=
  Z.pos (frames b) # bufferSampleRate b.

(** An [AudioChunk] of a server message; [data] may be absent. *)
Record AudioChunk := mkAudioChunk { data : option string }.

(** The data of a chunk when it is truthy: present and not the empty string. *)
Definition truthy (d : option string) : option string :=
  match d with
  | Some EmptyString => None
  | _ => d
  end.

(** Handle of a live session. *)
Definition Session := nat.

Inductive ErrorDetail :=
| NoActivePrompt                          (* 'Add an active prompt to start music.' *)
| ConnectionInterrupted (attempt max : Z) (* 'Connection interrupted. Retrying... (a/m)' *)
| UnableToMaintainConnection.             (* 'Unable to maintain connection. ...' *)

Inductive Event :=
| ErrorEvent (detail : ErrorDetail)
| PlaybackStateChanged (s : PlaybackState)
| FilteredPromptEvent (promptText reason : string)
| RecordingStateChanged (recording : bool)
| RecordingFinished (promptTexts : list string).

(** The callbacks handed to [setTimeout]. *)
Inductive Callback :=
| RetryPlay        (* handleDisconnection: play() again if still wanted *)
| PrerollDone      (* processAudioChunk: loading -> playing *)
| ThrottleFlush.   (* the throttled setWeightedPrompts *)

(** What the helper asks of its collaborators, in program order. *)
Inductive Action :=
| DispatchEvent (e : Event)
| SetTimeout (cb : Callback) (ms : Q)
| OpenSession
| SessionSetWeightedPrompts (s : Session) (weightedPrompts : list Prompt)
| SessionPlay (s : Session)
| SessionPause (s : Session)
| SessionStop (s : Session)
| SourceStart (buffer : AudioBuffer) (rate when : Q)
| ContextResume
| ConnectMasterToDestination
| ConnectMasterToExtraDestination
| OutputGainSetValueAtTime (value time : Q)
| OutputGainLinearRampToValueAtTime (value time : Q)
| CreateRecorder
| RecorderStart
| RecorderStop.

(** The mutable fields of the class. *)
Record Helper := mkHelper {
  session : option Session;
  filteredPrompts : gset string;
  nextStartTime : Q;
  playbackState : PlaybackState;
  prompts : PromptMap;
  isRecording : bool;
  mediaRecorder : bool;   (* [this.mediaRecorder !== null] *)
  playbackRate : Q;
  isTryingToConnectOrPlay : bool;
  reconnectAttempts : Z;
  promptThrottle : Throttle.State PromptMap;
  extraDestination : bool   (* [this.extraDestination !== null] *)
}.

Definition bufferTime : Q := 2.5.
Definition maxReconnectAttempts : Z := 5.

(** The state the constructor leaves. *)
Definition initial : Helper :=
  {| session := None; filteredPrompts := ∅; nextStartTime := 0;
     playbackState := stopped; prompts := []; isRecording := false;
     mediaRecorder := false; playbackRate := 1;
     isTryingToConnectOrPlay := false; reconnectAttempts := 0;
     promptThrottle := Throttle.idle; extraDestination := false |}.

(** *** A state monad that logs the actions *)

Definition M (A : Type) : Type := Helper -> A * Helper * list Action.

Definition ret {A : Type} (x : A) : M A := fun h => (x, h, []).

Definition bind {A B : Type} (m : M A) (f : A -> M B) : M B := fun h =>
  let '(x, h1, a1) := m h in
  let '(y, h2, a2) := f x h1 in
  (y, h2, a1 ++ a2).

Declare Scope helper_scope.
Delimit Scope helper_scope with helper.
Notation "x <- m ;; k" := (bind m (fun x => k))
  (at level 100, m at next level, right associativity) : helper_scope.
Notation "m ;; k" := (bind m (fun _ => k))
  (at level 100, right associativity) : helper_scope.
Local Open Scope helper_scope.

Definition gets {A : Type} (f : Helper -> A) : M A := fun h => (f h, h, []).
Definition modify (f : Helper -> Helper) : M unit := fun h => (tt, f h, []).
Definition emit (a : Action) : M unit := fun h => (tt, h, [a]).
Definition skip : M unit := ret tt.
Definition when (b : bool) (m : M unit) : M unit := if b then m else skip.

(** How an [async] function ends: it returns, or its promise rejects. *)
Inductive Completion := Returned | Rejected.

Definition valueOf {A : Type} (r : A * Helper * list Action) : A := fst (fst r).
Definition stateOf {A : Type} (r : A * Helper * list Action) : Helper := snd (fst r).
Definition actionsOf {A : Type} (r : A * Helper * list Action) : list Action := snd r.

(** [Keeps f R m]: running [m] relates the old value of the observation [f]
    to the new one by [R] (equality for a field that is left alone,
    inclusion for a set that only grows). *)
Definition Keeps {X A : Type} (f : Helper -> X) (R : relation X) (m : M A) : Prop :=
  forall h, R (f h) (f (stateOf (m h))).

(** Field assignments. *)
Definition set_session (v : option Session) (h : Helper) : Helper :=
  mkHelper v (filteredPrompts h) (nextStartTime h) (playbackState h) (prompts h)
    (isRecording h) (mediaRecorder h) (playbackRate h) (isTryingToConnectOrPlay h)
    (reconnectAttempts h) (promptThrottle h) (extraDestination h).
Definition set_filteredPrompts (v : gset string) (h : Helper) : Helper :=
  mkHelper (session h) v (nextStartTime h) (playbackState h) (prompts h)
    (isRecording h) (mediaRecorder h) (playbackRate h) (isTryingToConnectOrPlay h)
    (reconnectAttempts h) (promptThrottle h) (extraDestination h).
Definition set_nextStartTime (v : Q) (h : Helper) : Helper :=
  mkHelper (session h) (filteredPrompts h) v (playbackState h) (prompts h)
    (isRecording h) (mediaRecorder h) (playbackRate h) (isTryingToConnectOrPlay h)
    (reconnectAttempts h) (promptThrottle h) (extraDestination h).
Definition set_playbackState (v : PlaybackState) (h : Helper) : Helper :=
  mkHelper (session h) (filteredPrompts h) (nextStartTime h) v (prompts h)
    (isRecording h) (mediaRecorder h) (playbackRate h) (isTryingToConnectOrPlay h)
    (reconnectAttempts h) (promptThrottle h) (extraDestination h).
Definition set_prompts (v : PromptMap) (h : Helper) : Helper :=
  mkHelper (session h) (filteredPrompts h) (nextStartTime h) (playbackState h) v
    (isRecording h) (mediaRecorder h) (playbackRate h) (isTryingToConnectOrPlay h)
    (reconnectAttempts h) (promptThrottle h) (extraDestination h).
Definition set_isRecording (v : bool) (h : Helper) : Helper :=
  mkHelper (session h) (filteredPrompts h) (nextStartTime h) (playbackState h) (prompts h)
    v (mediaRecorder h) (playbackRate h) (isTryingToConnectOrPlay h)
    (reconnectAttempts h) (promptThrottle h) (extraDestination h).
Definition set_mediaRecorder (v : bool) (h : Helper) : Helper :=
  mkHelper (session h) (filteredPrompts h) (nextStartTime h) (playbackState h) (prompts h)
    (isRecording h) v (playbackRate h) (isTryingToConnectOrPlay h)
    (reconnectAttempts h) (promptThrottle h) (extraDestination h).
Definition set_playbackRate (v : Q) (h : Helper) : Helper :=
  mkHelper (session h) (filteredPrompts h) (nextStartTime h) (playbackState h) (prompts h)
    (isRecording h) (mediaRecorder h) v (isTryingToConnectOrPlay h)
    (reconnectAttempts h) (promptThrottle h) (extraDestination h).
Definition set_isTryingToConnectOrPlay (v : bool) (h : Helper) : Helper :=
  mkHelper (session h) (filteredPrompts h) (nextStartTime h) (playbackState h) (prompts h)
    (isRecording h) (mediaRecorder h) (playbackRate h) v
    (reconnectAttempts h) (promptThrottle h) (extraDestination h).
Definition set_reconnectAttempts (v : Z) (h : Helper) : Helper :=
  mkHelper (session h) (filteredPrompts h) (nextStartTime h) (playbackState h) (prompts h)
    (isRecording h) (mediaRecorder h) (playbackRate h) (isTryingToConnectOrPlay h)
    v (promptThrottle h) (extraDestination h).
Definition set_promptThrottle (v : Throttle.State PromptMap) (h : Helper) : Helper :=
  mkHelper (session h) (filteredPrompts h) (nextStartTime h) (playbackState h) (prompts h)
    (isRecording h) (mediaRecorder h) (playbackRate h) (isTryingToConnectOrPlay h)
    (reconnectAttempts h) v (extraDestination h).
Definition set_extraDestination (v : bool) (h : Helper) : Helper :=
  mkHelper (session h) (filteredPrompts h) (nextStartTime h) (playbackState h) (prompts h)
    (isRecording h) (mediaRecorder h) (playbackRate h) (isTryingToConnectOrPlay h)
    (reconnectAttempts h) (promptThrottle h) v.

(** [x < y] on JavaScript numbers. *)
Definition Qltb (x y : Q) : bool := (Qnum x * QDen y <? Qnum y * QDen x)%Z.

Definition dispatchEvent (e : Event) : M unit := emit (DispatchEvent e).
Definition setTimeout (cb : Callback) (ms : Q) : M unit := emit (SetTimeout cb ms).

(** *** Methods *)

(** [connect]: asks for a new session; the callbacks it installs are
    [onmessage], [onerror] and [onclose] below.  ([sessionPromise] is only
    ever assigned and is left out.) *)
Definition connect : M unit := emit OpenSession.

Definition setPlaybackState (s : PlaybackState) : M unit :=
  modify (set_playbackState s) ;;
  dispatchEvent (PlaybackStateChanged s).

(** The [activePrompts] getter. *)
Definition activePrompts (h : Helper) : list Prompt :=
  List.filter
    (fun p => negb (bool_decide (text p ∈ filteredPrompts h)) && Qltb 0 (weight p))
    (values (prompts h)).

Definition stopRecording : M unit :=
  r <- gets mediaRecorder ;;
  when r (emit RecorderStop).

Definition stop (now : Q) : M unit :=
  modify (set_isTryingToConnectOrPlay false) ;;
  recording <- gets isRecording ;;
  when recording stopRecording ;;
  s <- gets session ;;
  match s with
  | Some s => emit (SessionStop s)
  | None => skip
  end ;;
  setPlaybackState stopped ;;
  emit (OutputGainSetValueAtTime 0 now) ;;
  modify (set_nextStartTime 0) ;;
  modify (set_session None).

Definition pause (now : Q) : M unit :=
  modify (set_isTryingToConnectOrPlay false) ;;
  recording <- gets isRecording ;;
  when recording stopRecording ;;
  s <- gets session ;;
  match s with
  | Some s => emit (SessionPause s)
  | None => skip
  end ;;
  setPlaybackState paused ;;
  emit (OutputGainLinearRampToValueAtTime 0 (now + 0.1)) ;;
  modify (set_nextStartTime 0).

(** The back-off delay in milliseconds, from the counter after its
    increment: [Math.min(1000 * Math.pow(2, attempts), 8000)]. *)
Definition reconnectDelay (attempts : Z) : Z :=
  Z.min (1000 * 2 ^ attempts) 8000.

Definition handleDisconnection (now : Q) : M unit :=
  wasTrying <- gets isTryingToConnectOrPlay ;;
  modify (set_session None) ;;
  attempts <- gets reconnectAttempts ;;
  if wasTrying && (attempts <? maxReconnectAttempts)%Z then
    setPlaybackState loading ;;
    modify (set_reconnectAttempts (attempts + 1)%Z) ;;
    attempts <- gets reconnectAttempts ;;
    let delay := reconnectDelay attempts in
    dispatchEvent (ErrorEvent (ConnectionInterrupted attempts maxReconnectAttempts)) ;;
    setTimeout RetryPlay (inject_Z delay)
  else if wasTrying then
    dispatchEvent (ErrorEvent UnableToMaintainConnection) ;;
    stop now
  else skip.

(** The wrapped function of [setWeightedPrompts]. *)
Definition sendWeightedPrompts (ps : PromptMap) : M unit :=
  modify (set_prompts ps) ;;
  s <- gets session ;;
  match s with
  | None => skip
  | Some s =>
      active <- gets activePrompts ;;
      emit (SessionSetWeightedPrompts s active)
  end.

(** [setWeightedPrompts = throttle(sendWeightedPrompts, 150)]: a call. *)
Definition setWeightedPrompts (ps : PromptMap) : M unit :=
  th <- gets promptThrottle ;;
  let (th', arm) := Throttle.call ps th in
  modify (set_promptThrottle th') ;;
  when arm (setTimeout ThrottleFlush 150).

(** The timer of the throttle fires. *)
Definition flushWeightedPrompts : M unit :=
  th <- gets promptThrottle ;;
  let (th', args) := Throttle.fire th in
  modify (set_promptThrottle th') ;;
  match args with
  | Some ps => sendWeightedPrompts ps
  | None => skip
  end.

(** [play] up to its first suspension ([await this.connect()]). *)
Inductive PlayStatus := PlayRejected | PlayAwaitsSession.

Definition play : M PlayStatus :=
  modify (set_isTryingToConnectOrPlay true) ;;
  active <- gets activePrompts ;;
  if (length active =? 0)%nat then
    dispatchEvent (ErrorEvent NoActivePrompt) ;;
    modify (set_isTryingToConnectOrPlay false) ;;
    ret PlayRejected
  else
    setPlaybackState loading ;;
    connect ;;
    ret PlayAwaitsSession.

(** [play] resumed with the session [connect] resolved to. *)
Definition play_resumed (s : Session) (now : Q) : M unit :=
  modify (set_session (Some s)) ;;
  trying <- gets isTryingToConnectOrPlay ;;
  if negb trying then stop now
  else
    ps <- gets prompts ;;
    setWeightedPrompts ps ;;
    emit ContextResume ;;
    emit (SessionPlay s) ;;
    emit ConnectMasterToDestination ;;
    extra <- gets extraDestination ;;
    when extra (emit ConnectMasterToExtraDestination) ;;
    emit (OutputGainSetValueAtTime 0 now) ;;
    emit (OutputGainLinearRampToValueAtTime 1 (now + 0.2)).

(** [play] resumed in its [catch] clause. *)
Definition play_failed (now : Q) : M unit := handleDisconnection now.

Definition playPause (now : Q) : M unit :=
  st <- gets playbackState ;;
  match st with
  | playing => pause now
  | paused | stopped => play ;; skip
  | loading => stop now
  end.

Definition startRecording : M unit :=
  recording <- gets isRecording ;;
  st <- gets playbackState ;;
  if recording || negb (PlaybackState_eqb st playing) then skip
  else
    emit CreateRecorder ;;
    modify (set_mediaRecorder true) ;;
    emit RecorderStart ;;
    modify (set_isRecording true) ;;
    dispatchEvent (RecordingStateChanged true).

(** [mediaRecorder.onstop]. *)
Definition recorderStopped : M unit :=
  active <- gets activePrompts ;;
  dispatchEvent (RecordingFinished (map text active)) ;;
  modify (set_isRecording false) ;;
  dispatchEvent (RecordingStateChanged false).

Definition setPlaybackRate (rate : Q) : M unit := modify (set_playbackRate rate).

(** *** The playback scheduler ([processAudioChunk]) *)

(** The drift test of an ingest. *)
Definition fallenBehind (h : Helper) (now : Q) : bool :=
  Qltb (nextStartTime h) (now - 0.5).

(** Re-synchronize if we have fallen significantly behind. *)
Definition resynchronize (now : Q) : M unit :=
  behind <- gets (fun h => fallenBehind h now) ;;
  when behind (modify (set_nextStartTime (now + 0.1))).

(** The pre-roll branch of an ingest. *)
Definition preroll (now : Q) : M unit :=
  st <- gets playbackState ;;
  when (PlaybackState_eqb st loading)
    (modify (set_nextStartTime (now + bufferTime)) ;;
     setTimeout PrerollDone (bufferTime * 1000)).

(** [processAudioChunk] from the decoded buffer on; [now] is
    [audioContext.currentTime] read after the decode. *)
Definition scheduleBuffer (audioBuffer : AudioBuffer) (now : Q) : M unit :=
  rate <- gets playbackRate ;;
  resynchronize now ;;
  preroll now ;;
  start <- gets nextStartTime ;;
  emit (SourceStart audioBuffer rate start) ;;
  modify (set_nextStartTime (start + duration audioBuffer)).

(** The callback of the pre-roll timer. *)
Definition prerollDone : M unit :=
  st <- gets playbackState ;;
  when (PlaybackState_eqb st loading) (setPlaybackState playing).

(** The callback of the reconnect timer. *)
Definition retryPlay : M unit :=
  trying <- gets isTryingToConnectOrPlay ;;
  when trying (play ;; skip).

Definition timerFired (cb : Callback) : M unit :=
  match cb with
  | RetryPlay => retryPlay
  | PrerollDone => prerollDone
  | ThrottleFlush => flushWeightedPrompts
  end.

(** A server message; each audio chunk comes with the reading of the audio
    clock at the moment its decoded buffer is scheduled. *)
Record ServerMessage := mkServerMessage {
  setupComplete : bool;
  filteredPrompt : option (string * string);   (* text, reason *)
  audioChunks : list (AudioChunk * Q)
}.

Section Decoder.

(** [decodeAudioData(decode(data), audioContext, 48000, 2)], from the audio
    utilities; [None] stands for a rejected decode. *)
Variable decodeAudioData : string -> option AudioBuffer.

(** [processAudioChunk] has no [try]: a rejected decode rejects the call,
    with nothing scheduled.  The decode is taken to settle within the turn
    of the event loop that started it, so the guard, the decode and the
    scheduling form one turn. *)
Definition processAudioChunk (chunk : AudioChunk) (now : Q) : M Completion :=
  st <- gets playbackState ;;
  match st, truthy (data chunk) with
  | paused, _ | stopped, _ | _, None => ret Returned
  | _, Some bytes =>
      match decodeAudioData bytes with
      | None => ret Rejected
      | Some audioBuffer => scheduleBuffer audioBuffer now ;; ret Returned
      end
  end.

(** [for (const chunk of audioChunks) await this.processAudioChunk(chunk)]:
    a rejection leaves the loop, and the chunks after it are not
    processed. *)
Fixpoint processAudioChunks (chunks : list (AudioChunk * Q)) : M Completion :=
  match chunks with
  | [] => ret Returned
  | (chunk, now) :: rest =>
      c <- processAudioChunk chunk now ;;
      match c with
      | Returned => processAudioChunks rest
      | Rejected => ret Rejected
      end
  end.

(** The [onmessage] callback; nothing awaits it, so its rejection only ends
    the callback. *)
Definition onmessage (e : ServerMessage) : M Completion :=
  when (setupComplete e) (modify (set_reconnectAttempts 0)) ;;
  match filteredPrompt e with
  | Some (t, reason) =>
      old <- gets filteredPrompts ;;
      modify (set_filteredPrompts (old ∪ {[ t ]})) ;;
      dispatchEvent (FilteredPromptEvent t reason)
  | None => skip
  end ;;
  processAudioChunks (audioChunks e).

Definition onerror (now : Q) : M unit := handleDisconnection now.
Definition onclose (now : Q) : M unit := handleDisconnection now.

(** *** The event loop *)

(** What can happen to a helper: calls of its public methods, session
    callbacks, resumed continuations and timers. *)
Inductive Input :=
| CallPlay
| SessionOpened (s : Session)
| SessionOpenFailed
| CallPause
| CallStop
| CallPlayPause
| CallSetWeightedPrompts (ps : PromptMap)
| CallSetPlaybackRate (rate : Q)
| CallStartRecording
| CallStopRecording
| RecorderStopped
| OnMessage (e : ServerMessage)
| OnError
| OnClose
| TimerFired (cb : Callback).

(** One turn of the event loop, at audio-clock time [now]. *)
Definition step (i : Input) (now : Q) : M unit :=
  match i with
  | CallPlay => play ;; skip
  | SessionOpened s => play_resumed s now
  | SessionOpenFailed => play_failed now
  | CallPause => pause now
  | CallStop => stop now
  | CallPlayPause => playPause now
  | CallSetWeightedPrompts ps => setWeightedPrompts ps
  | CallSetPlaybackRate rate => setPlaybackRate rate
  | CallStartRecording => startRecording
  | CallStopRecording => stopRecording
  | RecorderStopped => recorderStopped
  | OnMessage e => onmessage e ;; skip
  | OnError => onerror now
  | OnClose => onclose now
  | TimerFired cb => timerFired cb
  end.

Fixpoint run (inputs : list (Input * Q)) : M unit :=
  match inputs with
  | [] => skip
  | (i, now) :: rest => step i now ;; run rest
  end.

End Decoder.

(** *** Observations on the log of actions *)

Definition isThrottleTimer (a : Action) : bool :=
  match a with SetTimeout ThrottleFlush _ => true | _ => false end.

(** The delays of the reconnect timers, in the order they were armed. *)
Definition retryDelays (acts : list Action) : list Q :=
  flat_map (fun a => match a with SetTimeout RetryPlay ms => [ms] | _ => [] end) acts.

Definition isFatalError (a : Action) : bool :=
  match a with
  | DispatchEvent (ErrorEvent UnableToMaintainConnection) => true
  | _ => false
  end.

Definition isOpenSession (a : Action) : bool :=
  match a with OpenSession => true | _ => false end.

Definition isStoppedEvent (a : Action) : bool :=
  match a with
  | DispatchEvent (PlaybackStateChanged stopped) => true
  | _ => false
  end.

Definition isPrerollTimer (a : Action) : bool :=
  match a with SetTimeout PrerollDone _ => true | _ => false end.

Definition count (p : Action -> bool) (acts : list Action) : nat :=
  length (List.filter p acts).

(** The start time and duration of every source started. *)
Definition scheduledStarts (acts : list Action) : list (Q * Q) :=
  flat_map (fun a => match a with
                     | SourceStart b _ start => [(start, duration b)]
                     | _ => []
                     end) acts.

(** The payloads sent upstream. *)
Definition upstreamPrompts (acts : list Action) : list (list Prompt) :=
  flat_map (fun a => match a with
                     | SessionSetWeightedPrompts _ ps => [ps]
                     | _ => []
                     end) acts.

(** The log of a sequence of ingests, up to the first rejected decode: for
    every buffer scheduled, whether the ingest found the schedule fallen
    behind (and resynchronized), the start time and the duration. *)
Fixpoint ingestLog (decodeAudioData : string -> option AudioBuffer)
    (chunks : list (AudioChunk * Q)) (h : Helper) : list (bool * Q * Q) :=
  match chunks with
  | [] => []
  | (chunk, now) :: rest =>
      let r := processAudioChunk decodeAudioData chunk now h in
      map (fun sd => (fallenBehind h now, fst sd, snd sd)) (scheduledStarts (actionsOf r))
      ++ match valueOf r with
         | Returned => ingestLog decodeAudioData rest (stateOf r)
         | Rejected => []
         end
  end.

(** Gapless playback: start times increase strictly, and a buffer starts
    where the one before it ends unless its ingest resynchronized. *)
Fixpoint gapless (log : list (bool * Q * Q)) : Prop :=
  match log with
  | (_, start1, duration1) :: rest =>
      match rest with
      | (resynchronized, start2, _) :: _ =>
          start1 < start2
          /\ (resynchronized = false -> start2 = start1 + duration1)
      | [] => True
      end
      /\ gapless rest
  | [] => True
  end.

(** What the rest of a log may assume about its first entry. *)
Definition continues (next : Q) (log : list (bool * Q * Q)) : Prop :=
  match log with
  | (resynchronized, start, _) :: _ =>
      next <= start /\ (resynchronized = false -> start = next)
  | [] => True
  end.

(** *** Scenarios *)

(** The connection is lost again and again: each session closes before its
    handshake, and the reconnect timer then fires. *)
Definition lostConnections (times : list Q) : list (Input * Q) :=
  flat_map (fun now => [(OnClose, now); (TimerFired RetryPlay, now)]) times.

(** A burst of calls of [setWeightedPrompts] inside one window of the
    throttle, and the timer of the window firing after the last one. *)
Definition burst (payloads : list PromptMap) (now : Q) : list (Input * Q) :=
  map (fun ps => (CallSetWeightedPrompts ps, now)) payloads
  ++ [(TimerFired ThrottleFlush, now)].

End LiveMusicHelper.

(** ** Sample data for the concrete checks *)

Module Samples.
Import LiveMusicHelper.
Local Open Scope Q_scope.
Local Open Scope string_scope.

(** Every chunk decodes to two seconds of audio at 48 kHz. *)
Definition twoSeconds : AudioBuffer := {| frames := 96000; bufferSampleRate := 48000 |}.
Definition decoder (bytes : string) : option AudioBuffer := Some twoSeconds.
Definition chunk : AudioChunk := {| data := Some "UklGRg" |}.

Definition techno : Prompt := {| promptId := "prompt-0"; text := "Techno"; weight := 0.5; cc := 0 |}.
Definition bossa : Prompt := {| promptId := "prompt-1"; text := "Bossa Nova"; weight := 1; cc := 1 |}.
Definition muted : Prompt := {| promptId := "prompt-2"; text := "Dubstep"; weight := 0; cc := 2 |}.

(** A helper with one active prompt that wants to be connected. *)
Definition wanted : Helper :=
  set_isTryingToConnectOrPlay true (set_prompts [("prompt-0", techno)] initial).

(** A decoder that rejects everything but the data of [chunk], and a chunk
    it rejects. *)
Definition strict (bytes : string) : option AudioBuffer :=
  if String.eqb bytes "UklGRg" then Some twoSeconds else None.
Definition garbled : AudioChunk := {| data := Some "UklG" |}.

End Samples.

(** ** Invariants of the helper *)

Module HelperInvariants.
Import LiveMusicHelper.

(** The attempt counter is within its budget. *)
Definition withinBudget (attempts : Z) : Prop :=
  (0 <= attempts <= maxReconnectAttempts)%Z.

(** A step that does not lead out of the budget. *)
Definition budgetStep : relation Z :=
  fun before after => withinBudget before -> withinBudget after.

(** The calls that start playback: [play] and [playPause]. *)
Definition restarts (i : Input) : bool :=
  match i with
  | CallPlay | CallPlayPause => true
  | _ => false
  end.

(** What [stop] and [pause] leave: playback is not wanted and no pre-roll
    is under way. *)
Definition atRest (h : Helper) : Prop :=
  isTryingToConnectOrPlay h = false /\ playbackState h <> loading.

Definition restStep : relation Helper :=
  fun before after => atRest before -> atRest after.

Definition isLoadingEvent (a : Action) : bool :=
  match a with
  | DispatchEvent (PlaybackStateChanged loading) => true
  | _ => false
  end.

Definition isPlayingEvent (a : Action) : bool :=
  match a with
  | DispatchEvent (PlaybackStateChanged playing) => true
  | _ => false
  end.

(** 1 while the helper is loading, and a pre-roll timer can still switch it
    to [playing]; 0 otherwise. *)
Definition prerollPending (h : Helper) : nat :=
  if PlaybackState_eqb (playbackState h) loading then 1 else 0.

(** A computation that switches to [playing] no more often than the helper
    was, or is put, into [loading]. *)
Definition Balanced {A : Type} (m : M A) : Prop :=
  forall h,
    (count isPlayingEvent (actionsOf (m h)) + prerollPending (stateOf (m h))
     <= count isLoadingEvent (actionsOf (m h)) + prerollPending h)%nat.

End HelperInvariants.

(** ** Using the effects graph: sequences of calls, routing, impulses *)

Module EffectsSession.
Import AudioEffects.
Local Open Scope R_scope.

(** A call of a public method of [AudioEffects]. *)
Inductive Op :=
| OpSetPan (value : R)
| OpSetMono (mono : bool)
| OpToggle8D (enabled : bool)
| OpSetFilterCutoff (value : R)
| OpSetFilterResonance (value : R)
| OpSetDelay (value : R)
| OpSetReverb (value : R)
| OpSetDelayTime (value : R)
| OpSetDelayFeedback (value : R).

Definition perform (op : Op) : Method :=
  match op with
  | OpSetPan v => setPan v
  | OpSetMono b => setMono b
  | OpToggle8D b => toggle8D b
  | OpSetFilterCutoff v => setFilterCutoff v
  | OpSetFilterResonance v => setFilterResonance v
  | OpSetDelay v => setDelay v
  | OpSetReverb v => setReverb v
  | OpSetDelayTime v => setDelayTime v
  | OpSetDelayFeedback v => setDelayFeedback v
  end.

(** The calls in order, each at its reading of the audio clock. *)
Fixpoint performAll (ops : list (Op * R)) (st : State) : State * list Call :=
  match ops with
  | [] => (st, [])
  | (op, now) :: rest =>
      let (st1, calls1) := perform op st now in
      let (st2, calls2) := performAll rest st1 in
      (st2, calls1 ++ calls2)
  end.

Definition Node_eqb (a b : Node) : bool :=
  match a, b with
  | Input, Input | MonoMerger, MonoMerger | Filter, Filter
  | Lfo, Lfo | LfoGain, LfoGain | PanParam, PanParam => true
  | _, _ => false
  end.

(** The connections among the nodes that are rewired after construction:
    [g a b] holds when [a] is connected to [b]. *)
Definition Graph := Node -> Node -> bool.

(** The constructor connects the input to the filter. *)
Definition constructed : Graph :=
  fun a b => Node_eqb a Input && Node_eqb b Filter.

(** The effect of a platform call on the connections.  [connect] of an
    existing connection changes nothing, [disconnect()] removes every
    outgoing connection, and [disconnect(destination)] throws when there is
    no such connection ([None]). *)
Definition rewire (c : Call) (g : Graph) : option Graph :=
  match c with
  | DisconnectAll n => Some (fun a b => negb (Node_eqb a n) && g a b)
  | Connect src dst => Some (fun a b => (Node_eqb a src && Node_eqb b dst) || g a b)
  | Disconnect src dst =>
      if g src dst
      then Some (fun a b => negb (Node_eqb a src && Node_eqb b dst) && g a b)
      else None
  | _ => Some g
  end.

Fixpoint rewireAll (calls : list Call) (g : Graph) : option Graph :=
  match calls with
  | [] => Some g
  | c :: rest =>
      match rewire c g with
      | Some g' => rewireAll rest g'
      | None => None
      end
  end.

(** Oscillators started and not yet told to stop. *)
Fixpoint runningOscillators (calls : list Call) : Z :=
  match calls with
  | [] => 0
  | OscillatorStart :: rest => 1 + runningOscillators rest
  | OscillatorStop _ :: rest => -1 + runningOscillators rest
  | _ :: rest => runningOscillators rest
  end%Z.

(** [createReverbImpulse]: the sample at index [i] of a channel, from the
    value [random] that [Math.random()] returned for it. *)
Definition impulseSample (random i numSamples decay : R) : R :=
  (random * 2 - 1) * Math_pow (1 - i / numSamples) decay.

(** The buffer as a function of channel and index, defined for the indices
    the loops visit; [random c i] is the value drawn for that sample. *)
Definition createReverbImpulse (random : nat -> nat -> R)
    (rate duration decay : R) (c i : nat) : option R :=
  let numSamples := rate * duration in
  if (c <? 2)%nat then
    if Rlt_dec (INR i) numSamples
    then Some (impulseSample (random c i) (INR i) numSamples decay)
    else None
  else None.

(** The routing the flags of the state stand for. *)
Definition Routed (st : State) (g : Graph) : Prop :=
  g Input Filter = negb (isMono st)
  /\ g Input MonoMerger = isMono st
  /\ g MonoMerger Filter = isMono st
  /\ g Lfo LfoGain = is8DEnabled st
  /\ lfo st = is8DEnabled st.

End EffectsSession.

(** ** The performance pad ([FxPad]) *)

Module FxPad.
Import AudioEffects.
Local Open Scope R_scope.

(** The bounding rectangle of the pad, in client coordinates. *)
Record DOMRect := mkRect { left : R; top : R; width : R; height : R }.

(** The fields of the element; [listening] says whether the window
    listeners of a gesture are installed. *)
Record Pad := mkPad {
  x : R;
  y : R;
  boundRect : option DOMRect;
  listening : bool
}.

Definition initial : Pad := {| x := 1; y := 0; boundRect := None; listening := false |}.

(** The detail of an ['fx-changed'] event. *)
Record FxChanged := mkFxChanged { detailX : R; detailY : R }.

(** [Math.max(0, Math.min(1, v))]. *)
Definition unit (v : R) : R := Rmax 0 (Rmin 1 v).

Definition positionX (rect : DOMRect) (clientX : R) : R :=
  unit ((clientX - left rect) / width rect).

Definition positionY (rect : DOMRect) (clientY : R) : R :=
  unit (1 - (clientY - top rect) / height rect).

Definition updatePosition (newX newY : R) (dispatch : bool) (pad : Pad)
  : Pad * list FxChanged :=
  ({| x := newX; y := newY; boundRect := boundRect pad; listening := listening pad |},
   if dispatch then [{| detailX := newX; detailY := newY |}] else []).

(** [rect] is what [getBoundingClientRect()] returns. *)
Definition handlePointerDown (rect : option DOMRect) (clientX clientY : R) (pad : Pad)
  : Pad * list FxChanged :=
  let pad := {| x := x pad; y := y pad; boundRect := rect; listening := listening pad |} in
  match rect with
  | None => (pad, [])
  | Some r =>
      let (pad, events) :=
        updatePosition (positionX r clientX) (positionY r clientY) true pad in
      ({| x := x pad; y := y pad; boundRect := boundRect pad; listening := true |}, events)
  end.

Definition handlePointerMove (clientX clientY : R) (pad : Pad) : Pad * list FxChanged :=
  match boundRect pad with
  | None => (pad, [])
  | Some r => updatePosition (positionX r clientX) (positionY r clientY) true pad
  end.

Definition handlePointerUp (pad : Pad) : Pad * list FxChanged :=
  ({| x := x pad; y := y pad; boundRect := boundRect pad; listening := false |}, []).

Definition resetPad (pad : Pad) : Pad * list FxChanged := updatePosition 1 0 true pad.

(** The position of the puck that [render] asks for, in percent. *)
Definition puckLeft (pad : Pad) : R := x pad * 100.
Definition puckTop (pad : Pad) : R := (1 - y pad) * 100.

(** What the browser delivers to the element. *)
Inductive Gesture :=
| PointerDown (rect : option DOMRect) (clientX clientY : R)
| PointerMove (clientX clientY : R)
| PointerUp
| DoubleClick.

(** Moves and releases reach the element only through the window listeners
    installed by [handlePointerDown]. *)
Definition deliver (g : Gesture) (pad : Pad) : Pad * list FxChanged :=
  match g with
  | PointerDown rect cx cy => handlePointerDown rect cx cy pad
  | PointerMove cx cy => if listening pad then handlePointerMove cx cy pad else (pad, [])
  | PointerUp => if listening pad then handlePointerUp pad else (pad, [])
  | DoubleClick => resetPad pad
  end.

Fixpoint deliverAll (gs : list Gesture) (pad : Pad) : Pad * list FxChanged :=
  match gs with
  | [] => (pad, [])
  | g :: rest =>
      let (pad1, events1) := deliver g pad in
      let (pad2, events2) := deliverAll rest pad1 in
      (pad2, events1 ++ events2)
  end.

(** A gesture whose rectangle, if it has one, has a positive size. *)
Definition wellSized (g : Gesture) : Prop :=
  match g with
  | PointerDown (Some r) _ _ => 0 < width r /\ 0 < height r
  | _ => True
  end.

(** The position is in the unit square. *)
Definition inSquare (pad : Pad) : Prop := 0 <= x pad <= 1 /\ 0 <= y pad <= 1.

(** [handlePerfFxChange] of the main component, on the effects graph the
    helper owns: the pad's X drives the filter cutoff and its Y the delay
    mix. *)
Definition handlePerfFxChange (e : FxChanged) : Method := fun st now =>
  let (st1, calls1) := setFilterCutoff (detailX e) st now in
  let (st2, calls2) := setDelay (detailY e) st1 now in
  (st2, calls1 ++ calls2).

(** A call that keeps its parameter in the range of its control. *)
Definition inRange (rate : R) (c : Call) : Prop :=
  match c with
  | SetTargetAtTime FilterFrequency target _ _ => 40 <= target <= rate / 2
  | SetTargetAtTime DelayWetGain target _ _ => 0 <= target <= 1
  | _ => False
  end.

End FxPad.

(** ** The effects window of the main component *)

Module FxWindow.
Local Open Scope R_scope.

(** [audioFxState]. *)
Record AudioFxState := mkAudioFxState {
  pitch : R;
  pan : R;
  reverb : R;
  delayTime : R;
  delayFeedback : R;
  filterCutoff : R;
  filterResonance : R;
  isMono : bool;
  is8D : bool;
  isWindowMinimized : bool
}.

(** The sliders of the window. *)
Inductive Slider :=
| Pitch | Pan | Reverb | DelayTime | DelayFeedback | FilterCutoff | FilterResonance.

(** The two buttons of the window. *)
Inductive Switch := IsMono | Is8D.

(** The component's state with the parts of the helper its handlers reach:
    the effects graph and the playback rate. *)
Record Window := mkWindow {
  audioFxState : AudioFxState;
  effects : AudioEffects.State;
  playbackRate : R
}.

Definition initial (rate : R) : Window :=
  {| audioFxState :=
       {| pitch := 1; pan := 0; reverb := 0.2; delayTime := 0.5; delayFeedback := 0.4;
          filterCutoff := 1; filterResonance := 0.1;
          isMono := false; is8D := false; isWindowMinimized := true |};
     effects := AudioEffects.initial rate;
     playbackRate := 1 |}.

(** [{...audioFxState, [property]: value}]. *)
Definition withSlider (p : Slider) (value : R) (s : AudioFxState) : AudioFxState :=
  match p with
  | Pitch =>
      mkAudioFxState value (pan s) (reverb s) (delayTime s) (delayFeedback s)
        (filterCutoff s) (filterResonance s) (isMono s) (is8D s) (isWindowMinimized s)
  | Pan =>
      mkAudioFxState (pitch s) value (reverb s) (delayTime s) (delayFeedback s)
        (filterCutoff s) (filterResonance s) (isMono s) (is8D s) (isWindowMinimized s)
  | Reverb =>
      mkAudioFxState (pitch s) (pan s) value (delayTime s) (delayFeedback s)
        (filterCutoff s) (filterResonance s) (isMono s) (is8D s) (isWindowMinimized s)
  | DelayTime =>
      mkAudioFxState (pitch s) (pan s) (reverb s) value (delayFeedback s)
        (filterCutoff s) (filterResonance s) (isMono s) (is8D s) (isWindowMinimized s)
  | DelayFeedback =>
      mkAudioFxState (pitch s) (pan s) (reverb s) (delayTime s) value
        (filterCutoff s) (filterResonance s) (isMono s) (is8D s) (isWindowMinimized s)
  | FilterCutoff =>
      mkAudioFxState (pitch s) (pan s) (reverb s) (delayTime s) (delayFeedback s)
        value (filterResonance s) (isMono s) (is8D s) (isWindowMinimized s)
  | FilterResonance =>
      mkAudioFxState (pitch s) (pan s) (reverb s) (delayTime s) (delayFeedback s)
        (filterCutoff s) value (isMono s) (is8D s) (isWindowMinimized s)
  end.

Definition handleFxChange (p : Slider) (value : R) (w : Window) (now : R)
  : Window * list AudioEffects.Call :=
  let fx := withSlider p value (audioFxState w) in
  match p with
  | Pitch => (mkWindow fx (effects w) value, [])
  | _ =>
      let (e, calls) :=
        match p with
        | Pan => AudioEffects.setPan value (effects w) now
        | Reverb => AudioEffects.setReverb value (effects w) now
        | DelayTime => AudioEffects.setDelayTime value (effects w) now
        | DelayFeedback => AudioEffects.setDelayFeedback value (effects w) now
        | FilterCutoff => AudioEffects.setFilterCutoff value (effects w) now
        | _ => AudioEffects.setFilterResonance value (effects w) now
        end in
      (mkWindow fx e (playbackRate w), calls)
  end.

Definition handleFxToggle (p : Switch) (w : Window) (now : R)
  : Window * list AudioEffects.Call :=
  let s := audioFxState w in
  match p with
  | IsMono =>
      let newValue := negb (isMono s) in
      let fx :=
        mkAudioFxState (pitch s) (pan s) (reverb s) (delayTime s) (delayFeedback s)
          (filterCutoff s) (filterResonance s) newValue (is8D s) (isWindowMinimized s) in
      let (e, calls) := AudioEffects.setMono newValue (effects w) now in
      (mkWindow fx e (playbackRate w), calls)
  | Is8D =>
      let newValue := negb (is8D s) in
      let newPan := if newValue then 0 else pan s in
      let fx :=
        mkAudioFxState (pitch s) newPan (reverb s) (delayTime s) (delayFeedback s)
          (filterCutoff s) (filterResonance s) (isMono s) newValue (isWindowMinimized s) in
      let (e1, calls1) := AudioEffects.toggle8D newValue (effects w) now in
      let (e2, calls2) := AudioEffects.setPan newPan e1 now in
      (mkWindow fx e2 (playbackRate w), calls1 ++ calls2)
  end.

(** What the user does in the window. *)
Inductive Action :=
| Slide (p : Slider) (value : R)
| Press (p : Switch).

Definition handle (a : Action) (w : Window) (now : R) : Window * list AudioEffects.Call :=
  match a with
  | Slide p value => handleFxChange p value w now
  | Press p => handleFxToggle p w now
  end.

Fixpoint handleAll (actions : list (Action * R)) (w : Window)
  : Window * list AudioEffects.Call :=
  match actions with
  | [] => (w, [])
  | (a, now) :: rest =>
      let (w1, calls1) := handle a w now in
      let (w2, calls2) := handleAll rest w1 in
      (w2, calls1 ++ calls2)
  end.

(** The flags shown agree with the flags of the effects graph. *)
Definition inStep (w : Window) : Prop :=
  isMono (audioFxState w) = AudioEffects.isMono (effects w)
  /\ is8D (audioFxState w) = AudioEffects.is8DEnabled (effects w).

End FxWindow.

(** ** Insertion-ordered maps and sets of JavaScript *)

Module JsMap.

(** [Map<string, V>]: the entries in insertion order, keys distinct. *)
Definition t (V : Type) : Type := list (string * V).

Fixpoint get {V : Type} (key : string) (m : t V) : option V :=
  match m with
  | [] => None
  | (k, v) :: rest => if String.eqb k key then Some v else get key rest
  end.

(** [set] replaces the value of a key in place and appends a new key. *)
Fixpoint set {V : Type} (key : string) (value : V) (m : t V) : t V :=
  match m with
  | [] => [(key, value)]
  | (k, v) :: rest =>
      if String.eqb k key then (k, value) :: rest else (k, v) :: set key value rest
  end.

Definition keys {V : Type} (m : t V) : list string := map fst m.
Definition values {V : Type} (m : t V) : list V := map snd m.

End JsMap.

Module JsSet.

(** [Set<string>]: the elements in insertion order, without repetition. *)
Definition t : Type := list string.

Definition has (x : string) (s : t) : bool := existsb (String.eqb x) s.

Definition add (x : string) (s : t) : t := if has x s then s else s ++ [x].

Definition delete (x : string) (s : t) : t :=
  List.filter (fun y => negb (String.eqb x y)) s.

End JsSet.

(** ** A track of the mixer ([PromptController]) *)

Module PromptController.
Local Open Scope Q_scope.

(** The [Prompt] of the components: the helper's prompt with its colour and
    category. *)
Record Prompt := mkPrompt {
  promptId : string;
  text : string;
  weight : Q;
  cc : Z;
  color : string;
  category : string
}.

(** What the helper reads of it. *)
Definition toWeighted (p : Prompt) : LiveMusicHelper.Prompt :=
  {| LiveMusicHelper.promptId := promptId p; LiveMusicHelper.text := text p;
     LiveMusicHelper.weight := weight p; LiveMusicHelper.cc := cc p |}.

(** The detail of a ['cc-message'] event. *)
Record ControlChange := mkControlChange { ccChannel : Z; ccNumber : Z; ccValue : Z }.

(** The reactive properties of the element that its handlers use. *)
Record Controller := mkController {
  prompt : Prompt;          (* promptId, text, weight, cc, color, category *)
  channel : Z;
  filtered : bool;
  learnMode : bool;
  showCC : bool;
  audioLevel : Q
}.

Inductive Dispatched :=
| PromptChanged (detail : Prompt)
| PromptRemoved (id : string).

Definition withWeight (w : Q) (p : Prompt) : Prompt :=
  mkPrompt (promptId p) (text p) w (cc p) (color p) (category p).

Definition withCc (n : Z) (p : Prompt) : Prompt :=
  mkPrompt (promptId p) (text p) (weight p) n (color p) (category p).

Definition dispatchPromptChange (c : Controller) : list Dispatched :=
  [PromptChanged (prompt c)].

(** The listener for ['cc-message'] installed by [connectedCallback]. *)
Definition onCcMessage (m : ControlChange) (c : Controller) : Controller * list Dispatched :=
  if learnMode c then
    let c' := mkController (withCc (ccNumber m) (prompt c)) (ccChannel m)
                (filtered c) false (showCC c) (audioLevel c) in
    (c', dispatchPromptChange c')
  else if (ccNumber m =? cc (prompt c))%Z then
    let c' := mkController (withWeight (inject_Z (ccValue m) / 127 * 2) (prompt c))
                (channel c) (filtered c) (learnMode c) (showCC c) (audioLevel c) in
    (c', dispatchPromptChange c')
  else (c, []).

(** [updateWeight], with the value of the slider. *)
Definition updateWeight (valueAsNumber : Q) (c : Controller) : Controller * list Dispatched :=
  let c' := mkController (withWeight valueAsNumber (prompt c)) (channel c)
              (filtered c) (learnMode c) (showCC c) (audioLevel c) in
  (c', dispatchPromptChange c').

Definition toggleLearnMode (c : Controller) : Controller :=
  mkController (prompt c) (channel c) (filtered c) (negb (learnMode c)) (showCC c)
    (audioLevel c).

(** The property [showCC] is set from outside; [update] then leaves learn
    mode when the property has changed and the controller numbers are
    hidden. *)
Definition setShowCC (show : bool) (c : Controller) : Controller :=
  let changed := negb (Bool.eqb show (showCC c)) in
  mkController (prompt c) (channel c) (filtered c)
    (if changed && negb show then false else learnMode c) show (audioLevel c).

Definition removeThisPrompt (c : Controller) : list Dispatched :=
  [PromptRemoved (promptId (prompt c))].

(** The fill of the slider that [render] computes, in percent. *)
Definition fillPercent (c : Controller) : Q := weight (prompt c) / 2 * 100.

End PromptController.

(** ** The main component ([PromptDjMidi]): the prompts it keeps and sends *)

Module PromptDjMidi.
Import PromptController.
Local Open Scope Q_scope.

(** The fields the prompt handlers use. *)
Record Component := mkComponent {
  allPrompts : JsMap.t Prompt;
  textToIdMap : JsMap.t string;
  activePromptIds : JsSet.t;
  previewingPromptId : option string;
  filteredPrompts : gset string;
  downloadUrl : option string;
  downloadFilename : string
}.

Definition with_allPrompts (v : JsMap.t Prompt) (u : Component) : Component :=
  mkComponent v (textToIdMap u) (activePromptIds u) (previewingPromptId u)
    (filteredPrompts u) (downloadUrl u) (downloadFilename u).

Definition with_activePromptIds (v : JsSet.t) (u : Component) : Component :=
  mkComponent (allPrompts u) (textToIdMap u) v (previewingPromptId u)
    (filteredPrompts u) (downloadUrl u) (downloadFilename u).

(** The constructor: the prompts it is given and the index from text to
    id built from them. *)
Definition construct (initialPrompts : JsMap.t Prompt) : Component :=
  {| allPrompts := initialPrompts;
     textToIdMap :=
       fold_left (fun m p => JsMap.set (text p) (promptId p) m)
         (JsMap.values initialPrompts) [];
     activePromptIds := [];
     previewingPromptId := None;
     filteredPrompts := ∅;
     downloadUrl := None;
     downloadFilename := "prompt-dj-beat.webm" |}.

(** The payload of ['prompts-changed'] that [dispatchPromptsChanged]
    builds, as it is at the moment of the dispatch. *)
Definition promptsToSend (u : Component) : JsMap.t Prompt :=
  match LiveMusicHelper.truthy (previewingPromptId u) with
  | Some previewing =>
      match JsMap.get previewing (allPrompts u) with
      | Some p => JsMap.set previewing (withWeight 1 p) []
      | None => []
      end
  | None =>
      fold_left
        (fun toSend id =>
           match JsMap.get id (allPrompts u) with
           | Some p =>
               if LiveMusicHelper.Qltb 0 (weight p) then JsMap.set id p toSend else toSend
           | None => toSend
           end)
        (activePromptIds u) []
  end.

Definition dispatchPromptsChanged (u : Component) : Component * list (JsMap.t Prompt) :=
  (u, [promptsToSend u]).

Definition handlePromptChanged (detail : Prompt) (u : Component)
  : Component * list (JsMap.t Prompt) :=
  match JsMap.get (promptId detail) (allPrompts u) with
  | None => (u, [])
  | Some p =>
      (* text, weight, cc, color and category are copied; the id stays *)
      let p' := mkPrompt (promptId p) (text detail) (weight detail) (cc detail)
                  (color detail) (category detail) in
      dispatchPromptsChanged (with_allPrompts (JsMap.set (promptId detail) p' (allPrompts u)) u)
  end.

Definition addPrompt (id : string) (u : Component) : Component * list (JsMap.t Prompt) :=
  match LiveMusicHelper.truthy (previewingPromptId u) with
  | Some _ => (u, [])
  | None =>
      let u1 :=
        match JsMap.get id (allPrompts u) with
        | Some p => with_allPrompts (JsMap.set id (withWeight 0.5 p) (allPrompts u)) u
        | None => u
        end in
      dispatchPromptsChanged (with_activePromptIds (JsSet.add id (activePromptIds u1)) u1)
  end.

Definition handlePromptRemoved (id : string) (u : Component)
  : Component * list (JsMap.t Prompt) :=
  let u1 :=
    match JsMap.get id (allPrompts u) with
    | Some p => with_allPrompts (JsMap.set id (withWeight 0 p) (allPrompts u)) u
    | None => u
    end in
  dispatchPromptsChanged (with_activePromptIds (JsSet.delete id (activePromptIds u1)) u1).

Definition getActivePromptColors (u : Component) : list string :=
  map color
    (List.filter
       (fun p => JsSet.has (promptId p) (activePromptIds u)
                 && LiveMusicHelper.Qltb 0 (weight p))
       (JsMap.values (allPrompts u))).

Definition addFilteredPrompt (t : string) (u : Component) : Component :=
  mkComponent (allPrompts u) (textToIdMap u) (activePromptIds u) (previewingPromptId u)
    (filteredPrompts u ∪ {[ t ]}) (downloadUrl u) (downloadFilename u).

(** An entry of the beat plan the model returns; the weight may be absent. *)
Record PlanEntry := mkPlanEntry { promptName : string; planWeight : option Q }.

(** [Math.max(0, Math.min(2, p.weight || 0.5))]: an absent or zero weight
    is falsy. *)
Definition beatWeight (w : option Q) : Q :=
  let given :=
    match w with
    | Some q => if Qeq_bool q 0 then 0.5 else q
    | None => 0.5
    end in
  Qmax 0 (Qmin 2 given).

(** [generateBeat] from the parsed plan on: the tracks are cleared, the
    prompts the plan names are activated with their weights, and the new
    set is dispatched. *)
Definition applyBeatPlan (plan : list PlanEntry) (u : Component)
  : Component * list (JsMap.t Prompt) :=
  let cleared :=
    fold_left
      (fun all id =>
         match JsMap.get id all with
         | Some p => JsMap.set id (withWeight 0 p) all
         | None => all
         end)
      (activePromptIds u) (allPrompts u) in
  let '(all, newActiveIds) :=
    fold_left
      (fun '(all, ids) entry =>
         match LiveMusicHelper.truthy (JsMap.get (promptName entry) (textToIdMap u)) with
         | Some id =>
             (match JsMap.get id all with
              | Some p => JsMap.set id (withWeight (beatWeight (planWeight entry)) p) all
              | None => all
              end,
              JsSet.add id ids)
         | None => (all, ids)
         end)
      plan (cleared, []) in
  dispatchPromptsChanged (with_activePromptIds newActiveIds (with_allPrompts all u)).

(** The characters [setDownload] keeps: [/[^a-z0-9-_]/gi] matches all the
    others.  A string is its sequence of code units, which [replace]
    visits one by one (the pattern has no [u] flag, so case folding adds
    no character beyond the ASCII letters); the model has the code units
    below 256. *)
Definition keptInFilename (c : Ascii.ascii) : bool :=
  let n := Ascii.nat_of_ascii c in
  ((97 <=? n) && (n <=? 122) || (65 <=? n) && (n <=? 90)
   || (48 <=? n) && (n <=? 57) || (n =? 45) || (n =? 95))%nat.

Definition underscore : Ascii.ascii := Ascii.ascii_of_nat 95.

Fixpoint sanitize (s : string) : string :=
  match s with
  | EmptyString => EmptyString
  | String c rest =>
      String (if keptInFilename c then c else underscore) (sanitize rest)
  end.

(** [prompts.join('-')]. *)
Definition join (parts : list string) : string := String.concat "-" parts.

(** The file name [setDownload] chooses from the texts of the prompts. *)
Definition filenameStem (prompts : list string) : string :=
  let usedPrompts := sanitize (join prompts) in
  match usedPrompts with
  | EmptyString => "prompt-dj-beat"
  | _ => usedPrompts
  end.

Definition setDownload (objectUrl : string) (prompts : list string) (u : Component)
  : Component :=
  mkComponent (allPrompts u) (textToIdMap u) (activePromptIds u) (previewingPromptId u)
    (filteredPrompts u) (Some objectUrl) (filenameStem prompts ++ ".webm").

Definition clearDownload (u : Component) : Component :=
  match LiveMusicHelper.truthy (downloadUrl u) with
  | Some _ =>
      mkComponent (allPrompts u) (textToIdMap u) (activePromptIds u)
        (previewingPromptId u) (filteredPrompts u) None (downloadFilename u)
  | None => u
  end.

(** What the helper caches when the payload reaches it. *)
Definition toHelper (payload : JsMap.t Prompt) : LiveMusicHelper.PromptMap :=
  map (fun kv => (fst kv, toWeighted (snd kv))) payload.

End PromptDjMidi.

(** ** Sample prompts of the main component *)

Module MixerSamples.
Import PromptController PromptDjMidi.
Local Open Scope Q_scope.

Definition techno : Prompt :=
  {| promptId := "prompt-0"; text := "Techno"; weight := 0; cc := 0;
     color := "#3498db"; category := "Electronic Genre" |}.

Definition bossa : Prompt :=
  {| promptId := "prompt-1"; text := "Bossa Nova"; weight := 0; cc := 1;
     color := "#2ecc71"; category := "Jazz Genre" |}.

(** The component as constructed over two prompts. *)
Definition fresh : Component :=
  construct [("prompt-0", techno); ("prompt-1", bossa)].

End MixerSamples.

(** * Properties of the effects graph *)

Section AudioEffectsFacts.
Import AudioEffects.
Local Open Scope R_scope.

Lemma clamp_in_range (lo hi v : R) : lo <= v <= hi -> clamp lo hi v = v.
Proof.
  intros [Hlo Hhi]. unfold clamp.
  rewrite Rmin_right by exact Hhi.
  now rewrite Rmax_right.
Qed.

Lemma clamp_above (lo hi v : R) : lo <= hi -> hi <= v -> clamp lo hi v = hi.
Proof.
  intros Hlh Hv. unfold clamp.
  rewrite Rmin_left by exact Hv.
  now rewrite Rmax_right.
Qed.

Lemma Math_pow_pos (b e : R) : 0 < Math_pow b e.
Proof. unfold Math_pow, Rpower. apply exp_pos. Qed.

Lemma ln_cutoffFrequency (rate v : R) :
  0 < rate ->
  ln (cutoffFrequency rate v) = ln 40 + v * (ln (rate / 2) - ln 40).
Proof.
  intros Hrate. unfold cutoffFrequency.
  rewrite ln_mult; [ | lra | apply Math_pow_pos ].
  unfold Math_pow, Rpower. rewrite ln_exp.
  replace (rate / 2 / 40) with ((rate / 2) * / 40) by reflexivity.
  rewrite ln_mult by lra.
  rewrite ln_Rinv by lra.
  lra.
Qed.

(** C9: [setFilterCutoff] targets [40 * (nyquist / 40) ^ v]: 40 Hz at
    [v = 0], the Nyquist frequency at [v = 1], and in between the logarithm
    of the frequency is linear in [v]; [setFilterResonance] targets
    [Q = 0.1 + v * (20 - 0.1)], from 0.1 at [v = 0] to 20 at [v = 1]. *)
Theorem filter_setters_mapping (st : State) (now v : R)
    (Hrate : 0 < sampleRate st) (Hv : 0 <= v <= 1) :
  let nyquist := sampleRate st / 2 in
  setFilterCutoff v st now
    = (st, [SetTargetAtTime FilterFrequency (40 * Rpower (nyquist / 40) v) now 0.05])
  /\ setFilterCutoff 0 st now = (st, [SetTargetAtTime FilterFrequency 40 now 0.05])
  /\ setFilterCutoff 1 st now = (st, [SetTargetAtTime FilterFrequency nyquist now 0.05])
  /\ ln (cutoffFrequency (sampleRate st) v) = (1 - v) * ln 40 + v * ln nyquist
  /\ setFilterResonance v st now
    = (st, [SetTargetAtTime FilterQ (0.1 + v * (20 - 0.1)) now 0.05])
  /\ setFilterResonance 0 st now = (st, [SetTargetAtTime FilterQ 0.1 now 0.05])
  /\ setFilterResonance 1 st now = (st, [SetTargetAtTime FilterQ 20 now 0.05])
  /\ 0.1 <= resonanceQ v <= 20.
Proof.
  intros nyquist.
  assert (Hbase : 0 < nyquist / 40) by (unfold nyquist; lra).
  split; [reflexivity | ].
  split.
  { unfold setFilterCutoff, cutoffFrequency, Math_pow. fold nyquist.
    rewrite (Rpower_O _ Hbase). do 3 f_equal. lra. }
  split.
  { unfold setFilterCutoff, cutoffFrequency, Math_pow. fold nyquist.
    rewrite (Rpower_1 _ Hbase). do 3 f_equal. lra. }
  split.
  { rewrite (ln_cutoffFrequency _ v Hrate). fold nyquist. lra. }
  split; [reflexivity | ].
  split; [ | split ]; unfold setFilterResonance, resonanceQ;
    [ do 3 f_equal; lra | do 3 f_equal; lra | lra ].
Qed.

Lemma filter_setters_mapping_witness :
  let st := initial 48000 in
  0 < sampleRate st /\ 0 <= 1 / 2 <= 1
  /\ setFilterCutoff 1 st 0 = (st, [SetTargetAtTime FilterFrequency (48000 / 2) 0 0.05])
  /\ setFilterResonance 1 st 0 = (st, [SetTargetAtTime FilterQ 20 0 0.05]).
Proof.
  intros st.
  assert (Hrate : 0 < sampleRate st) by (simpl; lra).
  assert (Hv : 0 <= 1 / 2 <= 1) by lra.
  pose proof (filter_setters_mapping st 0 (1 / 2) Hrate Hv) as H.
  cbv zeta in H.
  destruct H as (_ & _ & Hnyq & _ & _ & _ & Hq & _).
  split; [exact Hrate | split; [exact Hv | split; [exact Hnyq | exact Hq]]].
Defined.

(** The claim of C5 fails for each of the five setters it names: with the
    rotation effect off, an input of 2 reaches the audio parameter as it
    is. *)
Lemma setters_clamp_counterexample :
  (setPan 2 (initial 48000) 0
   = (initial 48000, [SetTargetAtTime PannerPan 2 0 0.05])
   /\ setDelayFeedback 2 (initial 48000) 0
      = (initial 48000, [SetTargetAtTime DelayFeedbackGain 2 0 0.05])
   /\ 1 < 2 /\ 0.95 <= 2)
  /\ ~ clampsInput (-1) 1 setPan
  /\ ~ clampsInput 0 1 setFilterCutoff
  /\ ~ clampsInput 0 1 setFilterResonance
  /\ ~ clampsInput 0 1 setReverb
  /\ ~ clampsInput 0 0.95 setDelayFeedback.
Proof.
  split; [ repeat split; lra | ].
  assert (Hc1 : clamp (-1) 1 2 = 1) by (apply clamp_above; lra).
  assert (Hc2 : clamp 0 1 2 = 1) by (apply clamp_above; lra).
  assert (Hc3 : clamp 0 0.95 2 = 0.95) by (apply clamp_above; lra).
  repeat split; intros H; specialize (H 2 (initial 48000) 0).
  - unfold setPan in H; simpl in H. rewrite Hc1 in H.
    injection H as H. lra.
  - unfold setFilterCutoff, cutoffFrequency, Math_pow in H; simpl in H.
    rewrite Hc2 in H. injection H as H.
    assert (Hlt : Rpower (48000 / 2 / 40) 1 < Rpower (48000 / 2 / 40) 2)
      by (apply Rpower_lt; lra).
    lra.
  - unfold setFilterResonance, resonanceQ in H; simpl in H.
    rewrite Hc2 in H. injection H as H. lra.
  - unfold setReverb in H. rewrite Hc2 in H. injection H as H. lra.
  - unfold setDelayFeedback in H. rewrite Hc3 in H. injection H as H. lra.
Qed.

Lemma clamp_fixed (lo hi v : R) : lo <= hi -> (clamp lo hi v = v <-> lo <= v <= hi).
Proof.
  intros Hlh. split; [ | apply clamp_in_range ].
  unfold clamp, Rmax, Rmin.
  destruct (Rle_dec hi v); destruct (Rle_dec lo _); intros H; lra.
Qed.

(** The cutoff mapping tells two slider values apart, except at a sample
    rate of 80 Hz, where the Nyquist frequency is the minimum frequency and
    every value maps to 40 Hz. *)
Lemma cutoffFrequency_inj (rate v w : R) :
  0 < rate ->
  (cutoffFrequency rate v = cutoffFrequency rate w <-> rate = 80 \/ v = w).
Proof.
  intros Hrate. unfold cutoffFrequency, Math_pow, Rpower.
  assert (Hbase : 0 < rate / 2 / 40) by lra.
  split.
  - intros H.
    assert (Hexp : exp (v * ln (rate / 2 / 40)) = exp (w * ln (rate / 2 / 40))) by lra.
    apply exp_inv in Hexp.
    destruct (Req_dec (ln (rate / 2 / 40)) 0) as [Hln | Hln].
    + left. rewrite <- ln_1 in Hln. apply ln_inv in Hln; lra.
    + right. apply (Rmult_eq_reg_r _ _ _ Hexp Hln).
  - intros [-> | ->]; [ | reflexivity ].
    replace (80 / 2 / 40) with 1 by lra.
    now rewrite ln_1, !Rmult_0_r.
Qed.

(** C5, amended: no setter clamps or rejects.  Each one forwards its input
    as the target of the automation ([setPan] unless the rotation effect is
    on, the filter setters through their mappings).  So, at a positive
    sample rate, a setter agrees with a clamping one exactly when the input
    is already in the documented range or the setter does not depend on its
    input at all: [setPan] while the rotation effect is on, and
    [setFilterCutoff] at a sample rate of 80 Hz. *)
Theorem setters_forward_input (st : State) (now : R) (Hrate : 0 < sampleRate st) :
  (forall v, setPan v st now
             = (st, if is8DEnabled st then []
                    else [SetTargetAtTime PannerPan v now 0.05]))
  /\ (forall v, setFilterCutoff v st now
       = (st, [SetTargetAtTime FilterFrequency
                 (40 * Rpower (sampleRate st / 2 / 40) v) now 0.05]))
  /\ (forall v, setFilterResonance v st now
       = (st, [SetTargetAtTime FilterQ (0.1 + v * (20 - 0.1)) now 0.05]))
  /\ (forall v, setReverb v st now = (st, [SetTargetAtTime ReverbWetGain v now 0.05]))
  /\ (forall v, setDelayFeedback v st now
       = (st, [SetTargetAtTime DelayFeedbackGain v now 0.05]))
  /\ (forall v, setPan v st now = setPan (clamp (-1) 1 v) st now
                <-> is8DEnabled st = true \/ -1 <= v <= 1)
  /\ (forall v, setFilterCutoff v st now = setFilterCutoff (clamp 0 1 v) st now
                <-> sampleRate st = 80 \/ 0 <= v <= 1)
  /\ (forall v, setFilterResonance v st now = setFilterResonance (clamp 0 1 v) st now
                <-> 0 <= v <= 1)
  /\ (forall v, setReverb v st now = setReverb (clamp 0 1 v) st now <-> 0 <= v <= 1)
  /\ (forall v, setDelayFeedback v st now = setDelayFeedback (clamp 0 0.95 v) st now
                <-> 0 <= v <= 0.95).
Proof.
  split; [ intros v; unfold setPan; now destruct (is8DEnabled st) | ].
  do 4 (split; [ reflexivity | ]).
  split; [ | split; [ | split; [ | split ] ] ]; intros v.
  - rewrite <- (clamp_fixed (-1) 1 v) by lra. unfold setPan.
    destruct (is8DEnabled st).
    + split; [ now left | reflexivity ].
    + split.
      * intros H. right. injection H as H. now symmetry.
      * intros [H | H]; [ discriminate | now rewrite H ].
  - rewrite <- (clamp_fixed 0 1 v) by lra. unfold setFilterCutoff.
    split.
    + intros H. injection H as H.
      apply (cutoffFrequency_inj _ _ _ Hrate) in H.
      destruct H as [H | H]; [ now left | right; now symmetry ].
    + intros H. do 3 f_equal. apply (cutoffFrequency_inj _ _ _ Hrate).
      destruct H as [H | H]; [ now left | right; now symmetry ].
  - rewrite <- (clamp_fixed 0 1 v) by lra. unfold setFilterResonance, resonanceQ.
    split.
    + intros H. injection H as H. lra.
    + intros H. now rewrite H.
  - rewrite <- (clamp_fixed 0 1 v) by lra. unfold setReverb.
    split.
    + intros H. injection H as H. now symmetry.
    + intros H. now rewrite H.
  - rewrite <- (clamp_fixed 0 0.95 v) by lra. unfold setDelayFeedback.
    split.
    + intros H. injection H as H. now symmetry.
    + intros H. now rewrite H.
Qed.

Lemma setters_forward_input_witness :
  let st := initial 48000 in
  0 < sampleRate st
  /\ setDelayFeedback 2 st 0 = (st, [SetTargetAtTime DelayFeedbackGain 2 0 0.05])
  /\ setPan (1 / 2) st 0 = setPan (clamp (-1) 1 (1 / 2)) st 0
  /\ setFilterCutoff 2 st 0 <> setFilterCutoff (clamp 0 1 2) st 0.
Proof.
  intros st.
  assert (Hrate : 0 < sampleRate st) by (simpl; lra).
  destruct (setters_forward_input st 0 Hrate)
    as (_ & _ & _ & _ & Hfb & Hpan & Hcut & _).
  split; [ exact Hrate | ].
  split; [ apply Hfb | ].
  split; [ apply Hpan; right; lra | ].
  intros H. apply Hcut in H. simpl in H. lra.
Defined.

End AudioEffectsFacts.

(** * Properties of the scheduler and connection manager *)

Section LiveMusicHelperFacts.
Import LiveMusicHelper Samples.
Local Open Scope string_scope.
Local Open Scope list_scope.
Local Open Scope Q_scope.
Local Open Scope helper_scope.

(** Unfolds the monad so that a method applied to a state computes. *)
Ltac run_method :=
  unfold bind, gets, modify, emit, ret, skip, when, dispatchEvent, setTimeout,
    stateOf, actionsOf; simpl.

Lemma stateOf_bind {A B : Type} (m : M A) (k : A -> M B) (h : Helper) :
  stateOf (bind m k h) = stateOf (k (valueOf (m h)) (stateOf (m h))).
Proof.
  unfold bind, stateOf, valueOf.
  destruct (m h) as [[x h1] a1]. simpl.
  now destruct (k x h1) as [[y h2] a2].
Qed.

Lemma actionsOf_bind {A B : Type} (m : M A) (k : A -> M B) (h : Helper) :
  actionsOf (bind m k h)
  = actionsOf (m h) ++ actionsOf (k (valueOf (m h)) (stateOf (m h))).
Proof.
  unfold bind, stateOf, actionsOf, valueOf.
  destruct (m h) as [[x h1] a1]. simpl.
  now destruct (k x h1) as [[y h2] a2].
Qed.

(** C4: when no prompt is active, [play] returns before its first
    suspension: it dispatches the error event for the user, asks for no
    session, and leaves the playback state (and the session) as they were. *)
Theorem play_without_active_prompts (h : Helper) (Hnone : activePrompts h = []) :
  let r := play h in
  fst (fst r) = PlayRejected
  /\ actionsOf r = [DispatchEvent (ErrorEvent NoActivePrompt)]
  /\ ~ In OpenSession (actionsOf r)
  /\ playbackState (stateOf r) = playbackState h
  /\ session (stateOf r) = session h.
Proof.
  assert (Hr : play h = (PlayRejected, set_isTryingToConnectOrPlay false h,
                         [DispatchEvent (ErrorEvent NoActivePrompt)])).
  { unfold play. run_method.
    change (activePrompts (set_isTryingToConnectOrPlay true h))
      with (activePrompts h).
    rewrite Hnone. reflexivity. }
  intros r. subst r. rewrite Hr. run_method.
  repeat split. intros [Habs | []]. discriminate Habs.
Qed.

Lemma play_without_active_prompts_witness :
  activePrompts initial = []
  /\ actionsOf (play initial) = [DispatchEvent (ErrorEvent NoActivePrompt)]
  /\ playbackState (stateOf (play initial)) = stopped.
Proof.
  assert (Hnone : activePrompts initial = []) by reflexivity.
  destruct (play_without_active_prompts initial Hnone) as (_ & Hacts & _ & Hst & _).
  split; [exact Hnone | split; [exact Hacts | exact Hst]].
Defined.

(** C10: [startRecording] does nothing when a recording is in progress or
    the playback state is not [playing]: the state is unchanged (no recorder,
    same recording flag) and nothing is dispatched. *)
Theorem startRecording_guard (h : Helper)
    (Hguard : isRecording h = true \/ playbackState h <> playing) :
  startRecording h = (tt, h, []).
Proof.
  unfold startRecording. run_method.
  destruct Hguard as [Hrec | Hstate].
  - rewrite Hrec. reflexivity.
  - destruct (playbackState h); try contradiction;
      rewrite orb_true_r; reflexivity.
Qed.

Lemma startRecording_guard_witness :
  startRecording initial = (tt, initial, [])
  /\ startRecording (set_isRecording true (set_playbackState playing initial))
     = (tt, set_isRecording true (set_playbackState playing initial), []).
Proof.
  split.
  - apply startRecording_guard. right. simpl. discriminate.
  - apply startRecording_guard. left. reflexivity.
Defined.

Lemma startRecording_starts (h : Helper) :
  isRecording h = false -> playbackState h = playing ->
  startRecording h
  = (tt, set_isRecording true (set_mediaRecorder true h),
     [CreateRecorder; RecorderStart; DispatchEvent (RecordingStateChanged true)]).
Proof.
  intros Hrec Hst. unfold startRecording. run_method.
  rewrite Hrec, Hst. reflexivity.
Qed.

(** ** Fields a computation keeps *)

Section Keeps.
Context {X : Type} (f : Helper -> X) (R : relation X).
Context `{!Reflexive R} `{!Transitive R}.

Lemma Keeps_ret {A : Type} (x : A) : Keeps f R (ret x).
Proof. intros h. reflexivity. Qed.

Lemma Keeps_skip : Keeps f R skip.
Proof. apply Keeps_ret. Qed.

Lemma Keeps_gets {A : Type} (g : Helper -> A) : Keeps f R (gets g).
Proof. intros h. reflexivity. Qed.

Lemma Keeps_emit (a : Action) : Keeps f R (emit a).
Proof. intros h. reflexivity. Qed.

Lemma Keeps_modify (g : Helper -> Helper) :
  (forall h, R (f h) (f (g h))) -> Keeps f R (modify g).
Proof. intros Hg h. apply Hg. Qed.

Lemma Keeps_bind {A B : Type} (m : M A) (k : A -> M B) :
  Keeps f R m -> (forall x, Keeps f R (k x)) -> Keeps f R (bind m k).
Proof.
  intros Hm Hk h. rewrite stateOf_bind.
  etransitivity; [ apply Hm | apply Hk ].
Qed.

Lemma Keeps_when (b : bool) (m : M unit) : Keeps f R m -> Keeps f R (when b m).
Proof. intros Hm. destruct b; [exact Hm | apply Keeps_skip]. Qed.

End Keeps.

(** Splits a method into its statements. *)
Ltac order_goal :=
  lazymatch goal with
  | |- Reflexive _ => exact _
  | |- Transitive _ => exact _
  | |- forall _, _ => intros ?
  | _ => idtac
  end.

Create HintDb keeps.

Ltac keeps_step :=
  first
    [ solve [ auto with keeps nocore ]
    | apply Keeps_bind; order_goal
    | apply Keeps_ret; order_goal
    | apply Keeps_skip; order_goal
    | apply Keeps_gets; order_goal
    | apply Keeps_emit; order_goal
    | apply Keeps_when; order_goal
    | apply Keeps_modify; intros ?; simpl; solve [ auto | reflexivity ]
    | match goal with
      | |- Keeps _ _ (match ?x with _ => _ end) => destruct x
      | |- Keeps _ _ (if ?b then _ else _) => destruct b
      | |- Keeps _ _ (let (_, _) := ?p in _) => destruct p
      end ].

Ltac keeps := repeat keeps_step.

(** Methods that leave the set of filtered prompts alone. *)
Abbreviation KeepsFiltered := (Keeps filteredPrompts eq).

Lemma stopRecording_filtered : KeepsFiltered stopRecording.
Proof. unfold stopRecording. keeps. Qed.

Lemma setPlaybackState_filtered s : KeepsFiltered (setPlaybackState s).
Proof. unfold setPlaybackState, dispatchEvent. keeps. Qed.

#[local] Hint Resolve stopRecording_filtered setPlaybackState_filtered : keeps.

Lemma stop_filtered now : KeepsFiltered (stop now).
Proof. unfold stop. keeps. Qed.

Lemma pause_filtered now : KeepsFiltered (pause now).
Proof. unfold pause. keeps. Qed.

#[local] Hint Resolve stop_filtered pause_filtered : keeps.

Lemma handleDisconnection_filtered now : KeepsFiltered (handleDisconnection now).
Proof. unfold handleDisconnection, dispatchEvent, setTimeout. keeps. Qed.

Lemma sendWeightedPrompts_filtered ps : KeepsFiltered (sendWeightedPrompts ps).
Proof. unfold sendWeightedPrompts. keeps. Qed.

#[local] Hint Resolve handleDisconnection_filtered sendWeightedPrompts_filtered : keeps.

Lemma setWeightedPrompts_filtered ps : KeepsFiltered (setWeightedPrompts ps).
Proof. unfold setWeightedPrompts, Throttle.call, setTimeout. keeps. Qed.

Lemma flushWeightedPrompts_filtered : KeepsFiltered flushWeightedPrompts.
Proof. unfold flushWeightedPrompts, Throttle.fire. keeps. Qed.

Lemma connect_filtered : KeepsFiltered connect.
Proof. unfold connect. keeps. Qed.

#[local] Hint Resolve setWeightedPrompts_filtered flushWeightedPrompts_filtered
  connect_filtered : keeps.

Lemma play_filtered : KeepsFiltered play.
Proof. unfold play, dispatchEvent. keeps. Qed.

#[local] Hint Resolve play_filtered : keeps.

Lemma play_resumed_filtered s now : KeepsFiltered (play_resumed s now).
Proof. unfold play_resumed. keeps. Qed.

Lemma playPause_filtered now : KeepsFiltered (playPause now).
Proof. unfold playPause. keeps. Qed.

Lemma startRecording_filtered : KeepsFiltered startRecording.
Proof. unfold startRecording, dispatchEvent. keeps. Qed.

Lemma recorderStopped_filtered : KeepsFiltered recorderStopped.
Proof. unfold recorderStopped, dispatchEvent. keeps. Qed.

Lemma scheduleBuffer_filtered b now : KeepsFiltered (scheduleBuffer b now).
Proof. unfold scheduleBuffer, resynchronize, preroll, setTimeout. keeps. Qed.

Lemma timerFired_filtered cb : KeepsFiltered (timerFired cb).
Proof. unfold timerFired, retryPlay, prerollDone. keeps. Qed.

#[local] Hint Resolve play_resumed_filtered playPause_filtered startRecording_filtered
  recorderStopped_filtered scheduleBuffer_filtered timerFired_filtered : keeps.

Lemma processAudioChunk_filtered dec chunk now :
  KeepsFiltered (processAudioChunk dec chunk now).
Proof. unfold processAudioChunk. keeps. Qed.

#[local] Hint Resolve processAudioChunk_filtered : keeps.

Lemma processAudioChunks_filtered dec chunks :
  KeepsFiltered (processAudioChunks dec chunks).
Proof.
  induction chunks as [ | [chunk now] rest IH]; simpl; keeps.
Qed.

#[local] Hint Resolve processAudioChunks_filtered : keeps.

Lemma Keeps_eq_subseteq {A : Type} (m : M A) :
  KeepsFiltered m -> Keeps filteredPrompts (⊆) m.
Proof. intros Hm h. now rewrite <- (Hm h). Qed.

Lemma filtered_notice_grows (t reason : string) :
  Keeps filteredPrompts (⊆)
    (old <- gets filteredPrompts ;;
     modify (set_filteredPrompts (old ∪ {[ t ]})) ;;
     dispatchEvent (FilteredPromptEvent t reason)).
Proof. intros h. run_method. set_solver. Qed.

#[local] Hint Resolve filtered_notice_grows : keeps.

Lemma onmessage_filtered dec e : Keeps filteredPrompts (⊆) (onmessage dec e).
Proof.
  unfold onmessage.
  keeps; apply Keeps_eq_subseteq; keeps.
Qed.

Lemma step_filtered dec i now : Keeps filteredPrompts (⊆) (step dec i now).
Proof.
  destruct i; simpl;
    try (apply Keeps_eq_subseteq;
         unfold setPlaybackRate, play_failed, onerror, onclose; solve [ keeps ]).
  apply Keeps_bind; order_goal; [ apply onmessage_filtered | apply Keeps_skip; exact _ ].
Qed.

Lemma run_filtered dec inputs : Keeps filteredPrompts (⊆) (run dec inputs).
Proof.
  induction inputs as [ | [i now] rest IH]; simpl.
  - apply Keeps_skip; exact _.
  - apply Keeps_bind; [ exact _ | apply step_filtered | intros _; exact IH ].
Qed.

(** The second half of C6 fails: a text filtered during one session is still
    in the set after [play] has opened the next session. *)
Lemma filteredPrompts_cleared_counterexample :
  let h := set_filteredPrompts {[ "Dubstep" ]} (set_prompts [("prompt-0", techno)] initial) in
  let r := run decoder [(CallPlay, 0); (SessionOpened 1%nat, 0)] h in
  In OpenSession (actionsOf r)
  /\ session (stateOf r) = Some 1%nat
  /\ filteredPrompts (stateOf r) <> ∅.
Proof.
  intros h r.
  assert (Hset : filteredPrompts (stateOf r) = {[ "Dubstep" ]}) by reflexivity.
  split; [ | split ].
  - vm_compute. tauto.
  - reflexivity.
  - rewrite Hset. set_solver.
Qed.

(** C6, amended: the set of filtered prompt texts only grows, over the whole
    life of the helper: no turn of the event loop removes a text, a filtered
    notice adds its text, and opening a session ([connect], [play] and its
    continuation) leaves the set as it is. *)
Theorem filteredPrompts_only_grow
    (dec : string -> option AudioBuffer) (inputs : list (Input * Q)) (h : Helper) :
  filteredPrompts h ⊆ filteredPrompts (stateOf (run dec inputs h))
  /\ (forall ready t reason chunks,
        filteredPrompts
          (stateOf (onmessage dec (mkServerMessage ready (Some (t, reason)) chunks) h))
        = filteredPrompts h ∪ {[ t ]})
  /\ filteredPrompts (stateOf (connect h)) = filteredPrompts h
  /\ filteredPrompts (stateOf (play h)) = filteredPrompts h
  /\ (forall s now,
        filteredPrompts (stateOf (play_resumed s now h)) = filteredPrompts h).
Proof.
  split; [ apply run_filtered | ].
  split.
  { intros ready t reason chunks. unfold onmessage. simpl.
    rewrite !stateOf_bind.
    rewrite <- (processAudioChunks_filtered dec chunks _).
    destruct ready; reflexivity. }
  split; [ reflexivity | ].
  split; [ symmetry; apply play_filtered | ].
  intros s now. symmetry. apply play_resumed_filtered.
Qed.

(** ** Reconnection *)

Lemma handleDisconnection_retry (now : Q) (h : Helper) :
  isTryingToConnectOrPlay h = true ->
  (reconnectAttempts h < maxReconnectAttempts)%Z ->
  handleDisconnection now h
  = (tt,
     set_reconnectAttempts (reconnectAttempts h + 1)
       (set_playbackState loading (set_session None h)),
     [DispatchEvent (PlaybackStateChanged loading);
      DispatchEvent
        (ErrorEvent (ConnectionInterrupted (reconnectAttempts h + 1) maxReconnectAttempts));
      SetTimeout RetryPlay (inject_Z (reconnectDelay (reconnectAttempts h + 1)))]).
Proof.
  intros Htrying Hlt. unfold handleDisconnection, setPlaybackState. run_method.
  rewrite Htrying. apply Z.ltb_lt in Hlt. rewrite Hlt. reflexivity.
Qed.

Lemma handleDisconnection_exhausted (now : Q) (h : Helper) :
  isTryingToConnectOrPlay h = true ->
  (maxReconnectAttempts <= reconnectAttempts h)%Z ->
  handleDisconnection now h
  = (dispatchEvent (ErrorEvent UnableToMaintainConnection) ;; stop now)
      (set_session None h).
Proof.
  intros Htrying Hge. unfold handleDisconnection. run_method.
  rewrite Htrying. apply Z.ltb_ge in Hge. rewrite Hge. simpl.
  destruct (stop now (set_session None h)) as [[u h'] acts]. now destruct u.
Qed.

Lemma handleDisconnection_idle (now : Q) (h : Helper) :
  isTryingToConnectOrPlay h = false ->
  handleDisconnection now h = (tt, set_session None h, []).
Proof.
  intros Htrying. unfold handleDisconnection. run_method.
  rewrite Htrying. reflexivity.
Qed.

Lemma retryPlay_wanted (h : Helper) :
  isTryingToConnectOrPlay h = true -> activePrompts h <> [] ->
  retryPlay h
  = (tt, set_playbackState loading (set_isTryingToConnectOrPlay true h),
     [DispatchEvent (PlaybackStateChanged loading); OpenSession]).
Proof.
  intros Htrying Hactive. unfold retryPlay, play, setPlaybackState, connect.
  run_method. rewrite Htrying. simpl.
  change (activePrompts (set_isTryingToConnectOrPlay true h)) with (activePrompts h).
  destruct (activePrompts h) as [ | p ps]; [ contradiction | reflexivity ].
Qed.

Lemma retryPlay_cancelled (h : Helper) :
  isTryingToConnectOrPlay h = false -> retryPlay h = (tt, h, []).
Proof.
  intros Htrying. unfold retryPlay. run_method. now rewrite Htrying.
Qed.

Lemma stop_without_session (now : Q) (h : Helper) :
  session h = None ->
  stop now h
  = (tt,
     set_session None
       (set_nextStartTime 0 (set_playbackState stopped
          (set_isTryingToConnectOrPlay false h))),
     (if isRecording h && mediaRecorder h then [RecorderStop] else [])
     ++ [DispatchEvent (PlaybackStateChanged stopped); OutputGainSetValueAtTime 0 now]).
Proof.
  intros Hnone. unfold stop, stopRecording, setPlaybackState. run_method.
  destruct (isRecording h); simpl;
    [ destruct (mediaRecorder h); simpl | ];
    rewrite Hnone; reflexivity.
Qed.

Lemma handleDisconnection_gives_up (now : Q) (h : Helper) :
  isTryingToConnectOrPlay h = true ->
  (maxReconnectAttempts <= reconnectAttempts h)%Z ->
  handleDisconnection now h
  = (tt,
     set_session None
       (set_nextStartTime 0 (set_playbackState stopped
          (set_isTryingToConnectOrPlay false (set_session None h)))),
     DispatchEvent (ErrorEvent UnableToMaintainConnection)
     :: (if isRecording h && mediaRecorder h then [RecorderStop] else [])
     ++ [DispatchEvent (PlaybackStateChanged stopped); OutputGainSetValueAtTime 0 now]).
Proof.
  intros Htrying Hge.
  rewrite (handleDisconnection_exhausted now h Htrying Hge).
  unfold bind, dispatchEvent, emit.
  rewrite (stop_without_session now (set_session None h) eq_refl).
  reflexivity.
Qed.

Lemma stateOf_run_cons dec i now rest h :
  stateOf (run dec ((i, now) :: rest) h)
  = stateOf (run dec rest (stateOf (step dec i now h))).
Proof. simpl. now rewrite stateOf_bind. Qed.

Lemma actionsOf_run_cons dec i now rest h :
  actionsOf (run dec ((i, now) :: rest) h)
  = actionsOf (step dec i now h)
    ++ actionsOf (run dec rest (stateOf (step dec i now h))).
Proof. simpl. now rewrite actionsOf_bind. Qed.

Lemma retryDelays_app (a b : list Action) :
  retryDelays (a ++ b) = retryDelays a ++ retryDelays b.
Proof. apply flat_map_app. Qed.

Lemma count_app (p : Action -> bool) (a b : list Action) :
  count p (a ++ b) = (count p a + count p b)%nat.
Proof. unfold count. now rewrite List.filter_app, length_app. Qed.

Lemma step_OnClose dec now : step dec OnClose now = handleDisconnection now.
Proof. reflexivity. Qed.

Lemma step_RetryPlay dec now : step dec (TimerFired RetryPlay) now = retryPlay.
Proof. reflexivity. Qed.

(** Once nothing is wanted any more, lost connections and pending retry
    timers do nothing. *)
Lemma lostConnections_idle dec (times : list Q) (h : Helper) :
  isTryingToConnectOrPlay h = false -> session h = None ->
  stateOf (run dec (lostConnections times) h) = h
  /\ actionsOf (run dec (lostConnections times) h) = [].
Proof.
  intros Htrying Hnone. induction times as [ | t rest [IHs IHa]]; [ now split | ].
  change (lostConnections (t :: rest))
    with ((OnClose, t) :: (TimerFired RetryPlay, t) :: lostConnections rest).
  rewrite !actionsOf_run_cons, !stateOf_run_cons.
  rewrite !step_OnClose, !step_RetryPlay.
  rewrite (handleDisconnection_idle t h Htrying).
  assert (Hsame : set_session None h = h).
  { destruct h; simpl in *; now subst. }
  cbn [stateOf actionsOf fst snd].
  rewrite Hsame, (retryPlay_cancelled h Htrying).
  cbn [stateOf actionsOf fst snd].
  rewrite IHs, IHa. now split.
Qed.

(** The schedule of a run of lost connections, from any value [a] of the
    attempt counter. *)
Lemma lostConnections_from dec (times : list Q) :
  forall (a : nat) (h : Helper),
    (a <= 5)%nat ->
    isTryingToConnectOrPlay h = true ->
    reconnectAttempts h = Z.of_nat a ->
    activePrompts h <> [] ->
    let r := run dec (lostConnections times) h in
    let k := length times in
    retryDelays (actionsOf r)
    = map (fun n => inject_Z (reconnectDelay (Z.of_nat n))) (firstn k (seq (S a) (5 - a)))
    /\ count isOpenSession (actionsOf r) = Nat.min k (5 - a)
    /\ count isFatalError (actionsOf r) = (if (5 - a <? k)%nat then 1 else 0)%nat
    /\ count isStoppedEvent (actionsOf r) = (if (5 - a <? k)%nat then 1 else 0)%nat
    /\ ((5 - a < k)%nat ->
        playbackState (stateOf r) = stopped
        /\ isTryingToConnectOrPlay (stateOf r) = false
        /\ session (stateOf r) = None).
Proof.
  induction times as [ | t rest IH]; intros a h Ha Htrying Hattempts Hactive r k.
  - subst r k. simpl. repeat split; solve [ reflexivity | lia ].
  - subst r k.
    change (lostConnections (t :: rest))
      with ((OnClose, t) :: (TimerFired RetryPlay, t) :: lostConnections rest).
    rewrite !actionsOf_run_cons, !stateOf_run_cons.
    rewrite !step_OnClose, !step_RetryPlay.
    destruct (Nat.eq_dec a 5%nat) as [-> | Hne].
    + (* the attempts are exhausted *)
      rewrite (handleDisconnection_gives_up t h Htrying)
        by (rewrite Hattempts; unfold maxReconnectAttempts; lia).
      cbn [stateOf actionsOf fst snd].
      match goal with
      | |- context [retryPlay ?h1] =>
          rewrite (retryPlay_cancelled h1 eq_refl);
          cbn [stateOf actionsOf fst snd];
          destruct (lostConnections_idle dec rest h1 eq_refl eq_refl) as [Hidle_s Hidle_a];
          rewrite Hidle_s, Hidle_a
      end.
      cbn [stateOf actionsOf fst snd length Nat.sub seq firstn map Nat.min].
      rewrite !app_nil_r.
      destruct (isRecording h && mediaRecorder h); repeat split; reflexivity.
    + (* one more retry *)
      assert (Hlt : (a < 5)%nat) by lia.
      rewrite (handleDisconnection_retry t h Htrying)
        by (rewrite Hattempts; unfold maxReconnectAttempts; lia).
      rewrite Hattempts.
      replace (Z.of_nat a + 1)%Z with (Z.of_nat (S a)) by lia.
      cbn [stateOf actionsOf fst snd].
      match goal with
      | |- context [retryPlay ?h1] =>
          rewrite (retryPlay_wanted h1 Htrying Hactive)
      end.
      cbn [stateOf actionsOf fst snd].
      match goal with
      | |- context [run dec (lostConnections rest) ?h2] =>
          assert (Hattempts2 : reconnectAttempts h2 = Z.of_nat (S a))
            by reflexivity;
          pose proof (IH (S a) h2 Hlt eq_refl Hattempts2 Hactive) as IH2;
          cbv zeta in IH2;
          destruct IH2 as (Hdelays & Hopen & Hfatal & Hstopped & Hfinal)
      end.
      rewrite !retryDelays_app, !count_app, Hdelays, Hopen, Hfatal, Hstopped.
      replace (5 - a)%nat with (S (5 - S a)) by lia.
      cbn [length firstn seq map retryDelays flat_map app count List.filter
             isOpenSession isFatalError isStoppedEvent Nat.add Nat.min].
      do 4 (split; [ reflexivity | ]).
      intros Hk. apply Hfinal. cbn [length] in Hk. lia.
Qed.

(** C3: while the helper wants to be connected, the n-th lost connection in a
    row (counted from 1) arms one retry timer of [min (1000 * 2 ^ n) 8000]
    milliseconds; [play] is retried at most five times; the sixth loss
    dispatches the fatal error, once, and runs [stop], after which neither a
    further loss nor a pending timer does anything. *)
Theorem reconnect_backoff
    (dec : string -> option AudioBuffer) (h : Helper) (times : list Q)
    (Htrying : isTryingToConnectOrPlay h = true)
    (Hfresh : reconnectAttempts h = 0%Z)
    (Hactive : activePrompts h <> []) :
  let r := run dec (lostConnections times) h in
  let k := length times in
  retryDelays (actionsOf r)
  = map (fun n => inject_Z (Z.min (1000 * 2 ^ n) 8000)) (firstn k [1; 2; 3; 4; 5]%Z)
  /\ count isOpenSession (actionsOf r) = Nat.min k 5
  /\ count isFatalError (actionsOf r) = (if (5 <? k)%nat then 1 else 0)%nat
  /\ count isStoppedEvent (actionsOf r) = (if (5 <? k)%nat then 1 else 0)%nat
  /\ ((5 < k)%nat ->
      playbackState (stateOf r) = stopped
      /\ isTryingToConnectOrPlay (stateOf r) = false
      /\ session (stateOf r) = None)
  /\ (forall (now : Q) (n : Z) (g : Helper),
        isTryingToConnectOrPlay g = true ->
        reconnectAttempts g = (n - 1)%Z -> (1 <= n <= 5)%Z ->
        actionsOf (handleDisconnection now g)
        = [DispatchEvent (PlaybackStateChanged loading);
           DispatchEvent (ErrorEvent (ConnectionInterrupted n 5));
           SetTimeout RetryPlay (inject_Z (Z.min (1000 * 2 ^ n) 8000))])
  /\ (forall (now : Q) (g : Helper),
        isTryingToConnectOrPlay g = true ->
        (5 <= reconnectAttempts g)%Z ->
        handleDisconnection now g
        = (dispatchEvent (ErrorEvent UnableToMaintainConnection) ;; stop now)
            (set_session None g)).
Proof.
  intros r k.
  destruct (lostConnections_from dec times 0 h (Nat.le_0_l 5) Htrying Hfresh Hactive)
    as (Hdelays & Hopen & Hfatal & Hstopped & Hfinal).
  split.
  { subst r k. rewrite Hdelays.
    change [1; 2; 3; 4; 5]%Z with (map Z.of_nat (seq 1 (5 - 0))).
    rewrite firstn_map, map_map. reflexivity. }
  do 4 (split; [ assumption | ]).
  split.
  - intros now n g Hg Hn Hrange.
    rewrite (handleDisconnection_retry now g Hg)
      by (rewrite Hn; unfold maxReconnectAttempts; lia).
    rewrite Hn. replace (n - 1 + 1)%Z with n by lia. reflexivity.
  - intros now g Hg Hge. now apply handleDisconnection_exhausted.
Qed.

Lemma reconnect_backoff_witness :
  let r := run decoder (lostConnections [0; 1; 2; 3; 4; 5; 6]) wanted in
  retryDelays (actionsOf r) = map inject_Z [2000; 4000; 8000; 8000; 8000]%Z
  /\ count isOpenSession (actionsOf r) = 5%nat
  /\ count isFatalError (actionsOf r) = 1%nat
  /\ playbackState (stateOf r) = stopped.
Proof.
  assert (Hactive : activePrompts wanted <> []) by (vm_compute; discriminate).
  destruct (reconnect_backoff decoder wanted [0; 1; 2; 3; 4; 5; 6]
              eq_refl eq_refl Hactive)
    as (Hdelays & Hopen & Hfatal & _ & Hfinal & _).
  split; [ exact Hdelays | ].
  split; [ exact Hopen | ].
  split; [ exact Hfatal | ].
  apply Hfinal. simpl. lia.
Defined.

(** ** The playback scheduler *)

Lemma Qltb_lt (x y : Q) : Qltb x y = true <-> x < y.
Proof. unfold Qltb, Qlt. apply Z.ltb_lt. Qed.

Lemma Qltb_ge (x y : Q) : Qltb x y = false <-> y <= x.
Proof. unfold Qltb, Qle. apply Z.ltb_ge. Qed.

Lemma duration_pos (b : AudioBuffer) : 0 < duration b.
Proof. unfold duration, Qlt. simpl. lia. Qed.

(** The start time an ingest uses while playing. *)
Lemma scheduleBuffer_playing (b : AudioBuffer) (now : Q) (h : Helper) :
  playbackState h = playing ->
  let start := if fallenBehind h now then now + 0.1 else nextStartTime h in
  scheduleBuffer b now h
  = (tt, set_nextStartTime (start + duration b) h,
     [SourceStart b (playbackRate h) start]).
Proof.
  intros Hst start. subst start.
  unfold scheduleBuffer, resynchronize, preroll. run_method.
  destruct (fallenBehind h now); simpl; rewrite Hst; reflexivity.
Qed.

(** The start time an ingest uses while loading. *)
Lemma scheduleBuffer_loading (b : AudioBuffer) (now : Q) (h : Helper) :
  playbackState h = loading ->
  scheduleBuffer b now h
  = (tt, set_nextStartTime (now + bufferTime + duration b) h,
     [SetTimeout PrerollDone (bufferTime * 1000);
      SourceStart b (playbackRate h) (now + bufferTime)]).
Proof.
  intros Hst.
  unfold scheduleBuffer, resynchronize, preroll. run_method.
  destruct (fallenBehind h now); simpl; rewrite Hst; reflexivity.
Qed.

(** What an ingest does: nothing (a chunk that is dropped, or whose decode
    is rejected), or the scheduling of the decoded buffer. *)
Lemma processAudioChunk_cases dec (chunk : AudioChunk) (now : Q) (h : Helper) :
  processAudioChunk dec chunk now h = (Returned, h, [])
  \/ processAudioChunk dec chunk now h = (Rejected, h, [])
  \/ exists b,
       (playbackState h = playing \/ playbackState h = loading)
       /\ processAudioChunk dec chunk now h
          = (Returned, stateOf (scheduleBuffer b now h),
             actionsOf (scheduleBuffer b now h)).
Proof.
  unfold processAudioChunk, bind, gets, ret, stateOf, actionsOf. cbn [fst snd].
  destruct (playbackState h) eqn:Hst; try (left; reflexivity);
    (destruct (truthy (data chunk)) as [bytes | ]; [ | left; reflexivity ]);
    (destruct (dec bytes) as [b | ]; [ right; right; exists b | right; left; reflexivity ]);
    (split; [ tauto | ]);
    cbn [app]; destruct (scheduleBuffer b now h) as [[u h'] acts]; cbn [fst snd];
    now rewrite app_nil_r.
Qed.

Lemma processAudioChunk_playing dec (chunk : AudioChunk) (now : Q) (h : Helper) :
  playbackState h = playing ->
  processAudioChunk dec chunk now h = (Returned, h, [])
  \/ processAudioChunk dec chunk now h = (Rejected, h, [])
  \/ exists b, processAudioChunk dec chunk now h
               = (Returned, stateOf (scheduleBuffer b now h),
                  actionsOf (scheduleBuffer b now h)).
Proof.
  intros Hst.
  destruct (processAudioChunk_cases dec chunk now h) as [H | [H | (b & _ & H)]];
    [ left | right; left | right; right; exists b ]; exact H.
Qed.

Lemma ingestLog_gapless dec (chunks : list (AudioChunk * Q)) :
  forall h, playbackState h = playing ->
    gapless (ingestLog dec chunks h)
    /\ continues (nextStartTime h) (ingestLog dec chunks h).
Proof.
  induction chunks as [ | [chunk now] rest IH]; intros h Hst; [ now split | ].
  cbn [ingestLog].
  destruct (processAudioChunk_playing dec chunk now h Hst) as [-> | [-> | [b ->]]].
  - apply (IH h Hst).
  - now split.
  - rewrite (scheduleBuffer_playing b now h Hst).
    cbn [actionsOf stateOf valueOf snd fst scheduledStarts flat_map map app].
    set (start := if fallenBehind h now then now + 0.1 else nextStartTime h).
    destruct (IH (set_nextStartTime (start + duration b) h) Hst) as [Hgap Hnext].
    cbn [nextStartTime set_nextStartTime] in Hnext.
    pose proof (duration_pos b) as Hpos.
    split; [ split; [ | exact Hgap ] | ].
    + destruct (ingestLog dec rest _) as [ | [[r2 s2] d2] log]; [ exact I | ].
      destruct Hnext as [Hle Heq]. split; [ lra | exact Heq ].
    + unfold continues, start.
      destruct (fallenBehind h now) eqn:Hbehind.
      * apply Qltb_lt in Hbehind. split; [ lra | discriminate ].
      * split; [ lra | reflexivity ].
Qed.

Lemma scheduledStarts_app (a b : list Action) :
  scheduledStarts (a ++ b) = scheduledStarts a ++ scheduledStarts b.
Proof. apply flat_map_app. Qed.

Lemma ingestLog_scheduledStarts dec (chunks : list (AudioChunk * Q)) :
  forall h,
    map (fun e => (snd (fst e), snd e)) (ingestLog dec chunks h)
    = scheduledStarts (actionsOf (processAudioChunks dec chunks h)).
Proof.
  induction chunks as [ | [chunk now] rest IH]; intros h; [ reflexivity | ].
  cbn [ingestLog processAudioChunks].
  rewrite actionsOf_bind, scheduledStarts_app, map_app, map_map.
  f_equal.
  - cbn [fst snd]. erewrite map_ext; [ apply map_id | intros [s d]; reflexivity ].
  - destruct (valueOf (processAudioChunk dec chunk now h)); [ apply IH | reflexivity ].
Qed.

(** C1: over any sequence of chunks ingested while the state is [playing],
    the start times handed to the sources increase strictly, and every
    buffer starts exactly where the previous one ends (its start plus its
    duration), unless its own ingest resynchronized. *)
Theorem gapless_while_playing
    (dec : string -> option AudioBuffer) (chunks : list (AudioChunk * Q)) (h : Helper)
    (Hplaying : playbackState h = playing) :
  gapless (ingestLog dec chunks h)
  /\ map (fun e => (snd (fst e), snd e)) (ingestLog dec chunks h)
     = scheduledStarts (actionsOf (processAudioChunks dec chunks h))
  /\ playbackState (stateOf (processAudioChunks dec chunks h)) = playing.
Proof.
  split; [ apply (ingestLog_gapless dec chunks h Hplaying) | ].
  split; [ apply ingestLog_scheduledStarts | ].
  rewrite <- Hplaying. symmetry.
  revert h Hplaying. induction chunks as [ | [chunk now] rest IH]; intros h Hst;
    [ reflexivity | ].
  cbn [processAudioChunks]. rewrite stateOf_bind.
  destruct (processAudioChunk_playing dec chunk now h Hst) as [-> | [-> | [b ->]]].
  - apply (IH h Hst).
  - reflexivity.
  - rewrite (scheduleBuffer_playing b now h Hst). cbn [stateOf valueOf fst snd].
    rewrite <- IH by exact Hst. reflexivity.
Qed.

Lemma gapless_while_playing_witness :
  let h := set_nextStartTime 10 (set_playbackState playing initial) in
  let chunks := [(chunk, 10); (chunk, 10.25); (chunk, 20)] in
  playbackState h = playing
  /\ gapless (ingestLog decoder chunks h)
  /\ map fst (ingestLog decoder chunks h)
     = [(false, 10); (false, 10 + duration twoSeconds); (true, 20 + 0.1)].
Proof.
  intros h chunks.
  assert (Hplaying : playbackState h = playing) by reflexivity.
  destruct (gapless_while_playing decoder chunks h Hplaying) as (Hgap & _ & _).
  split; [ exact Hplaying | split; [ exact Hgap | ] ].
  vm_compute. reflexivity.
Defined.

(** The first half of C2 fails: while playing, a schedule that is behind the
    audio clock by no more than half a second is not corrected, and the
    source is started in the past. *)
Lemma start_in_the_past_counterexample :
  let h := set_nextStartTime 10 (set_playbackState playing initial) in
  let now := 10.25 in
  fallenBehind h now = false
  /\ actionsOf (processAudioChunk decoder chunk now h) = [SourceStart twoSeconds 1 10]
  /\ 10 < now.
Proof. repeat split. Qed.

(** C2, amended: a source is never started more than half a second behind
    the audio clock; and when the schedule has fallen behind by more than
    that, [nextStartTime] is first resynchronized to exactly [now + 0.1], so
    the source starts in the future (at [now + 0.1] while playing). *)
Theorem start_time_bounded
    (dec : string -> option AudioBuffer) (chunk : AudioChunk) (now : Q) (h : Helper) :
  let starts := scheduledStarts (actionsOf (processAudioChunk dec chunk now h)) in
  Forall (fun sd => now - 0.5 <= fst sd) starts
  /\ (nextStartTime h < now - 0.5 ->
      nextStartTime (stateOf (resynchronize now h)) = now + 0.1
      /\ Forall (fun sd => now < fst sd) starts
      /\ (playbackState h = playing -> Forall (fun sd => fst sd = now + 0.1) starts)).
Proof.
  intros starts. subst starts.
  assert (Hsync : nextStartTime h < now - 0.5 ->
                  nextStartTime (stateOf (resynchronize now h)) = now + 0.1).
  { intros Hbehind. apply Qltb_lt in Hbehind. unfold resynchronize. run_method.
    fold (fallenBehind h now). unfold fallenBehind. now rewrite Hbehind. }
  destruct (processAudioChunk_cases dec chunk now h) as [-> | [-> | (b & Hst & ->)]];
    try (split; [ constructor | ]; intros Hbehind;
         split; [ now apply Hsync | split; [ constructor | intros _; constructor ] ]).
  destruct Hst as [Hst | Hst].
  - rewrite (scheduleBuffer_playing b now h Hst).
    cbn [actionsOf snd scheduledStarts flat_map app].
    destruct (fallenBehind h now) eqn:Hbehind.
    + split; [ constructor; [ cbn [fst]; lra | constructor ] | ].
      intros Hlt. split; [ now apply Hsync | ].
      split; [ constructor; [ cbn [fst]; lra | constructor ] | ].
      intros _. constructor; [ reflexivity | constructor ].
    + apply Qltb_ge in Hbehind.
      split; [ constructor; [ cbn [fst]; lra | constructor ] | ].
      intros Hlt. lra.
  - rewrite (scheduleBuffer_loading b now h Hst).
    cbn [actionsOf snd scheduledStarts flat_map app].
    unfold bufferTime.
    split; [ constructor; [ cbn [fst]; lra | constructor ] | ].
    intros Hlt. split; [ now apply Hsync | ].
    split; [ constructor; [ cbn [fst]; lra | constructor ] | ].
    intros Hplaying. rewrite Hst in Hplaying. discriminate.
Qed.

Lemma start_time_bounded_witness :
  let h := set_nextStartTime 10 (set_playbackState playing initial) in
  let now := 20 in
  nextStartTime h < now - 0.5
  /\ nextStartTime (stateOf (resynchronize now h)) = now + 0.1
  /\ actionsOf (processAudioChunk decoder chunk now h)
     = [SourceStart twoSeconds 1 (now + 0.1)].
Proof.
  intros h now.
  assert (Hbehind : nextStartTime h < now - 0.5) by reflexivity.
  destruct (start_time_bounded decoder chunk now h) as [_ Hsync].
  destruct (Hsync Hbehind) as [Hnext _].
  split; [ exact Hbehind | split; [ exact Hnext | reflexivity ] ].
Defined.

(** C7 at the failing input: two chunks ingested while the state is still
    [loading].  Each ingest arms a pre-roll timer, and the second resets
    [nextStartTime], so that its buffer starts a quarter of a second after
    the first one instead of at the first one's end: the two overlap. *)
Lemma preroll_rearmed_per_buffer :
  let h := set_playbackState loading initial in
  let r := processAudioChunks decoder [(chunk, 0); (chunk, 0.25)] h in
  actionsOf r
  = [SetTimeout PrerollDone (bufferTime * 1000);
     SourceStart twoSeconds 1 (0 + bufferTime);
     SetTimeout PrerollDone (bufferTime * 1000);
     SourceStart twoSeconds 1 (0.25 + bufferTime)]
  /\ count isPrerollTimer (actionsOf r) = 2%nat
  /\ 0.25 + bufferTime < (0 + bufferTime) + duration twoSeconds
  /\ playbackState (stateOf r) = loading.
Proof. repeat split. Qed.

(** ** The throttled prompt updates *)

Lemma run_app dec (l1 l2 : list (Input * Q)) :
  forall h,
    stateOf (run dec (l1 ++ l2) h) = stateOf (run dec l2 (stateOf (run dec l1 h)))
    /\ actionsOf (run dec (l1 ++ l2) h)
       = actionsOf (run dec l1 h) ++ actionsOf (run dec l2 (stateOf (run dec l1 h))).
Proof.
  induction l1 as [ | [i now] rest IH]; intros h; [ now split | ].
  rewrite <- app_comm_cons.
  rewrite !stateOf_run_cons, !actionsOf_run_cons.
  destruct (IH (stateOf (step dec i now h))) as [-> ->].
  now rewrite app_assoc.
Qed.

Lemma set_promptThrottle_same (h : Helper) : set_promptThrottle (promptThrottle h) h = h.
Proof. now destruct h. Qed.

(** A run of calls only replaces what the throttle remembers. *)
Lemma calls_are_remembered dec (now : Q) (payloads : list PromptMap) :
  forall h,
    let calls := map (fun ps => (CallSetWeightedPrompts ps, now)) payloads in
    stateOf (run dec calls h)
    = set_promptThrottle
        (fold_left (fun th ps => fst (Throttle.call ps th)) payloads (promptThrottle h)) h
    /\ actionsOf (run dec calls h)
       = (if Throttle.armed (promptThrottle h) then []
          else match payloads with
               | [] => []
               | _ :: _ => [SetTimeout ThrottleFlush 150]
               end).
Proof.
  induction payloads as [ | ps rest IH]; intros h calls; subst calls.
  - cbn [map fold_left]. rewrite set_promptThrottle_same.
    split; [ reflexivity | now destruct (Throttle.armed (promptThrottle h)) ].
  - cbn [map fold_left]. rewrite stateOf_run_cons, actionsOf_run_cons.
    assert (Hstep : step dec (CallSetWeightedPrompts ps) now h
                    = (tt, set_promptThrottle (fst (Throttle.call ps (promptThrottle h))) h,
                       if Throttle.armed (promptThrottle h) then []
                       else [SetTimeout ThrottleFlush 150])).
    { cbn [step]. unfold setWeightedPrompts, Throttle.call. run_method.
      now destruct (Throttle.armed (promptThrottle h)). }
    rewrite Hstep. cbn [stateOf actionsOf fst snd].
    destruct (IH (set_promptThrottle (fst (Throttle.call ps (promptThrottle h))) h))
      as [-> ->].
    split; [ reflexivity | ].
    cbn [promptThrottle set_promptThrottle Throttle.call Throttle.armed fst].
    now rewrite app_nil_r.
Qed.

Lemma flush_sends_pending (ps : PromptMap) (h : Helper) :
  promptThrottle h = {| Throttle.pending := Some ps; Throttle.armed := true |} ->
  flushWeightedPrompts h
  = (tt, set_prompts ps (set_promptThrottle Throttle.idle h),
     match session h with
     | Some s => [SessionSetWeightedPrompts s (activePrompts (set_prompts ps h))]
     | None => []
     end).
Proof.
  intros Hth. unfold flushWeightedPrompts, sendWeightedPrompts, Throttle.fire.
  run_method. rewrite Hth. simpl.
  now destruct (session h).
Qed.

(** C8: a burst of calls of [setWeightedPrompts] inside one window of the
    throttle arms one timer and makes no upstream call before it fires; when
    it fires, exactly one upstream call is made if a session is open,
    carrying the active prompts of the last payload of the burst, and none
    if no session is open, the prompt set being cached all the same; the
    cached set goes upstream once a session has been opened. *)
Theorem prompt_updates_coalesced
    (dec : string -> option AudioBuffer)
    (earlier : list PromptMap) (latest : PromptMap) (now : Q) (h : Helper)
    (Hidle : promptThrottle h = Throttle.idle) :
  let calls := map (fun ps => (CallSetWeightedPrompts ps, now)) (earlier ++ [latest]) in
  let r := run dec (burst (earlier ++ [latest]) now) h in
  upstreamPrompts (actionsOf (run dec calls h)) = []
  /\ count isThrottleTimer (actionsOf r) = 1%nat
  /\ upstreamPrompts (actionsOf r)
     = match session h with
       | Some _ => [activePrompts (set_prompts latest h)]
       | None => []
       end
  /\ stateOf r = set_prompts latest h
  /\ (forall s : Session,
        session h = None -> isTryingToConnectOrPlay h = true ->
        upstreamPrompts
          (actionsOf (run dec [(SessionOpened s, now); (TimerFired ThrottleFlush, now)]
                        (stateOf r)))
        = [activePrompts (set_prompts latest h)]).
Proof.
  intros calls r.
  destruct (calls_are_remembered dec now (earlier ++ [latest]) h) as [Hstate Hacts].
  fold calls in Hstate, Hacts.
  rewrite Hidle, fold_left_app in Hstate. rewrite Hidle in Hacts.
  cbn [fold_left Throttle.call fst Throttle.armed Throttle.idle] in Hstate, Hacts.
  assert (Htimer : actionsOf (run dec calls h) = [SetTimeout ThrottleFlush 150]).
  { rewrite Hacts. now destruct earlier. }
  assert (Hr : stateOf r = set_prompts latest h
               /\ actionsOf r
                  = SetTimeout ThrottleFlush 150
                    :: match session h with
                       | Some s => [SessionSetWeightedPrompts s (activePrompts (set_prompts latest h))]
                       | None => []
                       end).
  { subst r. unfold burst. fold calls.
    destruct (run_app dec calls [(TimerFired ThrottleFlush, now)] h) as [-> ->].
    rewrite stateOf_run_cons, actionsOf_run_cons, Htimer, Hstate.
    cbn [step timerFired run].
    match goal with
    | |- context [flushWeightedPrompts ?g] =>
        rewrite (flush_sends_pending latest g eq_refl)
    end.
    cbn [stateOf actionsOf fst snd skip ret app session set_promptThrottle].
    split; [ | now rewrite app_nil_r ].
    unfold set_prompts, set_promptThrottle. simpl. now rewrite <- Hidle. }
  destruct Hr as [Hs Ha].
  split; [ now rewrite Htimer | ].
  split; [ rewrite Ha; now destruct (session h) | ].
  split; [ rewrite Ha; now destruct (session h) | ].
  split; [ exact Hs | ].
  intros s Hnone Htrying. rewrite Hs.
  rewrite actionsOf_run_cons, actionsOf_run_cons.
  cbn [step timerFired].
  assert (Hopen : play_resumed s now (set_prompts latest h)
                  = (tt,
                     set_promptThrottle
                       {| Throttle.pending := Some latest; Throttle.armed := true |}
                       (set_session (Some s) (set_prompts latest h)),
                     [SetTimeout ThrottleFlush 150; ContextResume; SessionPlay s;
                      ConnectMasterToDestination]
                     ++ (if extraDestination h then [ConnectMasterToExtraDestination]
                         else [])
                     ++ [OutputGainSetValueAtTime 0 now;
                         OutputGainLinearRampToValueAtTime 1 (now + 0.2)])).
  { unfold play_resumed, setWeightedPrompts, Throttle.call. run_method.
    rewrite Htrying. simpl. rewrite Hidle. simpl.
    now destruct (extraDestination h). }
  rewrite Hopen. cbn [stateOf actionsOf fst snd].
  match goal with
  | |- context [flushWeightedPrompts ?g] =>
      rewrite (flush_sends_pending latest g eq_refl)
  end.
  now destruct (extraDestination h).
Qed.

Lemma prompt_updates_coalesced_witness :
  let h := set_session (Some 7%nat) initial in
  let r := run decoder
             (burst [[("prompt-0", techno)];
                     [("prompt-0", techno); ("prompt-2", muted)];
                     [("prompt-1", bossa); ("prompt-2", muted)]] 0) h in
  promptThrottle h = Throttle.idle
  /\ upstreamPrompts (actionsOf r) = [[bossa]]
  /\ count isThrottleTimer (actionsOf r) = 1%nat.
Proof.
  intros h r.
  assert (Hidle : promptThrottle h = Throttle.idle) by reflexivity.
  destruct (prompt_updates_coalesced decoder
              [[("prompt-0", techno)]; [("prompt-0", techno); ("prompt-2", muted)]]
              [("prompt-1", bossa); ("prompt-2", muted)] 0 h Hidle)
    as (_ & Htimer & Hup & _).
  split; [ exact Hidle | split; [ exact Hup | exact Htimer ] ].
Defined.

(** ** Stopping, pausing and what arrives afterwards *)

Lemma stop_leaves (now : Q) (h : Helper) :
  let h' := stateOf (stop now h) in
  playbackState h' = stopped /\ session h' = None /\ nextStartTime h' = 0
  /\ isTryingToConnectOrPlay h' = false.
Proof.
  unfold stop, stopRecording, setPlaybackState. run_method.
  destruct (isRecording h); simpl;
    [ destruct (mediaRecorder h); simpl | ];
    destruct (session h); simpl; repeat split.
Qed.

Lemma pause_leaves (now : Q) (h : Helper) :
  let h' := stateOf (pause now h) in
  playbackState h' = paused /\ session h' = session h /\ nextStartTime h' = 0
  /\ isTryingToConnectOrPlay h' = false.
Proof.
  unfold pause, stopRecording, setPlaybackState. run_method.
  destruct (isRecording h); simpl;
    [ destruct (mediaRecorder h); simpl | ];
    destruct (session h) eqn:Hsession; simpl; rewrite ?Hsession; repeat split.
Qed.

Lemma processAudioChunk_dropped dec (chunk : AudioChunk) (now : Q) (h : Helper) :
  playbackState h = paused \/ playbackState h = stopped ->
  processAudioChunk dec chunk now h = (Returned, h, []).
Proof.
  intros Hst. unfold processAudioChunk, bind, gets. cbn [fst snd].
  destruct Hst as [-> | ->]; reflexivity.
Qed.

Lemma processAudioChunks_dropped dec (chunks : list (AudioChunk * Q)) (h : Helper) :
  playbackState h = paused \/ playbackState h = stopped ->
  processAudioChunks dec chunks h = (Returned, h, []).
Proof.
  intros Hst. induction chunks as [ | [chunk now] rest IH]; [ reflexivity | ].
  cbn [processAudioChunks]. unfold bind.
  now rewrite (processAudioChunk_dropped dec chunk now h Hst), IH.
Qed.

Lemma onmessage_actions dec (e : ServerMessage) (h : Helper) :
  playbackState h = paused \/ playbackState h = stopped ->
  scheduledStarts (actionsOf (onmessage dec e h)) = []
  /\ count isPrerollTimer (actionsOf (onmessage dec e h)) = 0%nat
  /\ nextStartTime (stateOf (onmessage dec e h)) = nextStartTime h
  /\ playbackState (stateOf (onmessage dec e h)) = playbackState h.
Proof.
  intros Hst. unfold onmessage.
  rewrite !actionsOf_bind, !stateOf_bind.
  set (h1 := stateOf (when (setupComplete e) (modify (set_reconnectAttempts 0)) h)).
  assert (H1 : playbackState h1 = playbackState h /\ nextStartTime h1 = nextStartTime h
               /\ actionsOf (when (setupComplete e) (modify (set_reconnectAttempts 0)) h) = []).
  { subst h1. now destruct (setupComplete e). }
  destruct H1 as (Hp1 & Hn1 & ->).
  match goal with
  | |- context [processAudioChunks dec (audioChunks e) ?g] => set (h2 := g)
  end.
  assert (H2 : playbackState h2 = playbackState h /\ nextStartTime h2 = nextStartTime h).
  { subst h2. destruct (filteredPrompt e) as [[t reason] | ]; cbn; now split. }
  destruct H2 as [Hp2 Hn2].
  rewrite processAudioChunks_dropped by (rewrite Hp2; exact Hst).
  cbn [actionsOf stateOf fst snd]. rewrite app_nil_r, Hp2, Hn2.
  destruct (filteredPrompt e) as [[t reason] | ]; repeat split.
Qed.

(** After [stop] or [pause], a server message that still arrives from the
    session being torn down starts no source and arms no pre-roll timer,
    whatever chunks it carries, and [nextStartTime] stays reset. *)
Theorem late_messages_are_dropped
    (dec : string -> option AudioBuffer) (e : ServerMessage) (now : Q) (h : Helper) :
  let halted := [stateOf (stop now h); stateOf (pause now h)] in
  Forall (fun g =>
            scheduledStarts (actionsOf (onmessage dec e g)) = []
            /\ count isPrerollTimer (actionsOf (onmessage dec e g)) = 0%nat
            /\ nextStartTime (stateOf (onmessage dec e g)) = 0) halted.
Proof.
  intros halted. subst halted.
  destruct (stop_leaves now h) as (Hs & _ & Hsn & _).
  destruct (pause_leaves now h) as (Hp & _ & Hpn & _).
  repeat constructor.
  - apply onmessage_actions. now right.
  - apply onmessage_actions. now right.
  - destruct (onmessage_actions dec e (stateOf (stop now h))) as (_ & _ & -> & _);
      [ now right | exact Hsn ].
  - apply onmessage_actions. now left.
  - apply onmessage_actions. now left.
  - destruct (onmessage_actions dec e (stateOf (pause now h))) as (_ & _ & -> & _);
      [ now left | exact Hpn ].
Qed.

Lemma prerollDone_elsewhere (g : Helper) :
  playbackState g <> loading -> prerollDone g = (tt, g, []).
Proof.
  intros Hst. unfold prerollDone, bind, gets. cbn [fst snd].
  now destruct (playbackState g).
Qed.

Import HelperInvariants.

#[local] Instance restStep_reflexive : Reflexive restStep.
Proof. intros x Hx. exact Hx. Qed.

#[local] Instance restStep_transitive : Transitive restStep.
Proof. intros x y z Hxy Hyz Hx. apply Hyz, Hxy, Hx. Qed.

(** Computations that leave a helper at rest at rest. *)
Abbreviation StaysAtRest := (Keeps (fun h : Helper => h) restStep).

Create HintDb rest.

Ltac rest_step :=
  first
    [ solve [ auto with rest nocore ]
    | apply Keeps_bind; order_goal
    | apply Keeps_ret; order_goal
    | apply Keeps_skip; order_goal
    | apply Keeps_gets; order_goal
    | apply Keeps_emit; order_goal
    | apply Keeps_when; order_goal
    | apply Keeps_modify; intros ? [? ?]; split; cbn;
      solve [ assumption | discriminate | reflexivity ]
    | match goal with
      | |- Keeps _ _ (match ?x with _ => _ end) => destruct x
      | |- Keeps _ _ (if ?b then _ else _) => destruct b
      | |- Keeps _ _ (let (_, _) := ?p in _) => destruct p
      end ].

(** Unfolds the methods that do not start playback. *)
Ltac unfold_quiet :=
  unfold play_resumed, play_failed, timerFired, prerollDone, onerror, onclose,
    pause, stop, stopRecording, startRecording, recorderStopped,
    setWeightedPrompts, flushWeightedPrompts, sendWeightedPrompts, setPlaybackRate,
    scheduleBuffer, resynchronize, preroll, setPlaybackState,
    Throttle.call, Throttle.fire, dispatchEvent, setTimeout.

Lemma handleDisconnection_atRest now : StaysAtRest (handleDisconnection now).
Proof.
  intros h [Htrying Hst]. rewrite (handleDisconnection_idle now h Htrying).
  split; assumption.
Qed.

Lemma retryPlay_atRest : StaysAtRest retryPlay.
Proof.
  intros h [Htrying Hst]. rewrite (retryPlay_cancelled h Htrying).
  split; assumption.
Qed.

#[local] Hint Resolve handleDisconnection_atRest retryPlay_atRest : rest.

Lemma processAudioChunks_atRest dec chunks : StaysAtRest (processAudioChunks dec chunks).
Proof.
  induction chunks as [ | [chunk now] rest IH]; simpl; [ repeat rest_step | ].
  apply Keeps_bind; [ exact _ | | intros [ | ]; [ exact IH | repeat rest_step ] ].
  unfold processAudioChunk. unfold_quiet. repeat rest_step.
Qed.

#[local] Hint Resolve processAudioChunks_atRest : rest.

Lemma step_atRest dec i now : restarts i = false -> StaysAtRest (step dec i now).
Proof.
  destruct i; intros Hi; try discriminate Hi; cbn [step];
    unfold onmessage; unfold_quiet; repeat rest_step.
Qed.

Lemma run_atRest dec (inputs : list (Input * Q)) :
  Forall (fun i => restarts (fst i) = false) inputs -> StaysAtRest (run dec inputs).
Proof.
  induction 1 as [ | [i now] rest Hi Hrest IH]; simpl.
  - apply Keeps_skip; exact _.
  - apply Keeps_bind; [ exact _ | now apply step_atRest | intros _; exact IH ].
Qed.

(** After [stop] or [pause], and until [play] or [playPause] is called
    again, timers armed earlier are inert whenever they fire: whatever
    messages, session callbacks, other calls and timers come in between,
    the reconnect timer does not call [play] and the pre-roll timer does
    not switch to [playing]. *)
Theorem stale_timers_are_inert
    (dec : string -> option AudioBuffer) (now : Q) (h : Helper)
    (between : list (Input * Q))
    (Hquiet : Forall (fun i => restarts (fst i) = false) between) :
  let halted := [stateOf (stop now h); stateOf (pause now h)] in
  Forall (fun g =>
            let g' := stateOf (run dec between g) in
            timerFired RetryPlay g' = (tt, g', [])
            /\ timerFired PrerollDone g' = (tt, g', [])) halted.
Proof.
  intros halted. subst halted.
  assert (Hinert : forall g, atRest g ->
            let g' := stateOf (run dec between g) in
            timerFired RetryPlay g' = (tt, g', [])
            /\ timerFired PrerollDone g' = (tt, g', [])).
  { intros g Hg g'.
    destruct (run_atRest dec between Hquiet g Hg) as [Htrying Hst]. fold g' in Htrying, Hst.
    split; cbn [timerFired];
      [ now apply retryPlay_cancelled | now apply prerollDone_elsewhere ]. }
  destruct (stop_leaves now h) as (Hs & _ & _ & Hst).
  destruct (pause_leaves now h) as (Hp & _ & _ & Hpt).
  constructor; [ | constructor; [ | constructor ] ]; apply Hinert; split;
    try assumption.
  - rewrite Hs. discriminate.
  - rewrite Hp. discriminate.
Qed.

Lemma stale_timers_are_inert_witness :
  let h := set_playbackState loading wanted in
  let ready := {| setupComplete := true; filteredPrompt := None;
                  audioChunks := [(chunk, 1)] |} in
  let between := [(OnMessage ready, 1); (OnClose, 2); (TimerFired PrerollDone, 2.5);
                  (SessionOpened 1%nat, 3)] in
  let g := stateOf (run decoder between (stateOf (stop 0 h))) in
  Forall (fun i => restarts (fst i) = false) between
  /\ timerFired RetryPlay g = (tt, g, [])
  /\ timerFired PrerollDone g = (tt, g, []).
Proof.
  intros h ready between g.
  assert (Hquiet : Forall (fun i => restarts (fst i) = false) between)
    by (repeat constructor).
  split; [ exact Hquiet | ].
  pose proof (stale_timers_are_inert decoder 0 h between Hquiet) as Hinert.
  apply Forall_inv in Hinert. exact Hinert.
Defined.

(** The condition is needed: a reconnect timer armed before [stop] fires
    after the next [play] like one of its own, and opens a further
    session. *)
Lemma retry_timer_outlives_restart :
  let inputs := [(CallPlay, 0); (OnClose, 1); (CallStop, 2); (CallPlay, 3);
                 (TimerFired RetryPlay, 3.5)] in
  count isOpenSession (actionsOf (run decoder inputs wanted)) = 3%nat.
Proof. reflexivity. Qed.

(** ** The pre-roll timers *)

Lemma prerollDone_loading (g : Helper) :
  playbackState g = loading ->
  prerollDone g
  = (tt, set_playbackState playing g, [DispatchEvent (PlaybackStateChanged playing)]).
Proof.
  intros Hst. unfold prerollDone, setPlaybackState. run_method. now rewrite Hst.
Qed.

Lemma Balanced_ret {A : Type} (x : A) : Balanced (ret x).
Proof. intros h. cbn. lia. Qed.

Lemma Balanced_skip : Balanced skip.
Proof. apply Balanced_ret. Qed.

Lemma Balanced_gets {A : Type} (g : Helper -> A) : Balanced (gets g).
Proof. intros h. cbn. lia. Qed.

Lemma Balanced_emit (a : Action) : isPlayingEvent a = false -> Balanced (emit a).
Proof.
  intros Ha h. unfold count. cbn. rewrite Ha. cbn.
  destruct (isLoadingEvent a); cbn; lia.
Qed.

Lemma Balanced_modify (g : Helper -> Helper) :
  (forall h, playbackState (g h) = playbackState h) -> Balanced (modify g).
Proof. intros Hg h. unfold prerollPending. cbn. rewrite Hg. lia. Qed.

Lemma Balanced_bind {A B : Type} (m : M A) (k : A -> M B) :
  Balanced m -> (forall x, Balanced (k x)) -> Balanced (bind m k).
Proof.
  intros Hm Hk h. rewrite stateOf_bind, actionsOf_bind, !count_app.
  specialize (Hm h). specialize (Hk (valueOf (m h)) (stateOf (m h))). lia.
Qed.

Lemma Balanced_when (b : bool) (m : M unit) : Balanced m -> Balanced (when b m).
Proof. intros Hm. destruct b; [ exact Hm | apply Balanced_skip ]. Qed.

Lemma Balanced_setPlaybackState (s : PlaybackState) :
  s <> playing -> Balanced (setPlaybackState s).
Proof.
  intros Hs h. unfold prerollPending.
  destruct s; try contradiction; cbn; destruct (PlaybackState_eqb _ _); lia.
Qed.

Lemma Balanced_prerollDone : Balanced prerollDone.
Proof.
  intros h. destruct (PlaybackState_eqb (playbackState h) loading) eqn:Hst.
  - assert (Hloading : playbackState h = loading)
      by (destruct (playbackState h); (reflexivity || discriminate)).
    rewrite (prerollDone_loading h Hloading). unfold prerollPending.
    rewrite Hloading. cbn. lia.
  - assert (Hother : playbackState h <> loading)
      by (intros Heq; rewrite Heq in Hst; discriminate).
    rewrite (prerollDone_elsewhere h Hother). cbn. lia.
Qed.

Create HintDb balanced.

#[local] Hint Resolve Balanced_setPlaybackState Balanced_prerollDone : balanced.
#[local] Hint Extern 1 (_ <> _) => discriminate : balanced.

Ltac balanced_step :=
  first
    [ solve [ auto with balanced nocore ]
    | apply Balanced_bind; [ | intros ? ]
    | apply Balanced_ret
    | apply Balanced_skip
    | apply Balanced_gets
    | apply Balanced_emit; reflexivity
    | apply Balanced_when
    | apply Balanced_modify; intros ?; reflexivity
    | match goal with
      | |- Balanced (match ?x with _ => _ end) => destruct x
      | |- Balanced (if ?b then _ else _) => destruct b
      | |- Balanced (let (_, _) := ?p in _) => destruct p
      end ].

(** Unfolds the methods down to [setPlaybackState] and the callback of the
    pre-roll timer. *)
Ltac unfold_above_state :=
  unfold play_resumed, play_failed, playPause, timerFired, retryPlay,
    onerror, onclose, handleDisconnection, play, pause, stop, stopRecording,
    startRecording, recorderStopped, setWeightedPrompts, flushWeightedPrompts,
    sendWeightedPrompts, setPlaybackRate, scheduleBuffer, resynchronize, preroll,
    connect, Throttle.call, Throttle.fire, dispatchEvent, setTimeout.

Lemma processAudioChunks_balanced dec chunks : Balanced (processAudioChunks dec chunks).
Proof.
  induction chunks as [ | [chunk now] rest IH]; simpl; [ repeat balanced_step | ].
  apply Balanced_bind; [ | intros [ | ]; [ exact IH | repeat balanced_step ] ].
  unfold processAudioChunk. unfold_above_state. repeat balanced_step.
Qed.

#[local] Hint Resolve processAudioChunks_balanced : balanced.

Lemma step_balanced dec i now : Balanced (step dec i now).
Proof.
  destruct i; cbn [step]; unfold onmessage; unfold_above_state; repeat balanced_step.
Qed.

Lemma run_balanced dec (inputs : list (Input * Q)) : Balanced (run dec inputs).
Proof.
  induction inputs as [ | [i now] rest IH]; simpl.
  - apply Balanced_skip.
  - apply Balanced_bind; [ apply step_balanced | intros _; exact IH ].
Qed.

(** A pre-roll completes once: the timer switches to [playing], and
    dispatches the change, only when it finds the helper [loading], so
    over any run of the event loop the switches to [playing] are no more
    than the switches to [loading], counting a helper that starts in
    [loading].  However many pre-roll timers were armed, in a run that does
    not put the helper into [loading] again at most one of them switches
    to [playing]. *)
Theorem preroll_completes_once
    (dec : string -> option AudioBuffer) (inputs : list (Input * Q)) (h : Helper) :
  let r := run dec inputs h in
  (playbackState h = loading ->
   timerFired PrerollDone h
   = (tt, set_playbackState playing h, [DispatchEvent (PlaybackStateChanged playing)]))
  /\ (playbackState h <> loading -> timerFired PrerollDone h = (tt, h, []))
  /\ (count isPlayingEvent (actionsOf r) + prerollPending (stateOf r)
      <= count isLoadingEvent (actionsOf r) + prerollPending h)%nat
  /\ (count isLoadingEvent (actionsOf r) = 0%nat ->
      (count isPlayingEvent (actionsOf r) <= prerollPending h <= 1)%nat).
Proof.
  intros r. subst r.
  split; [ apply prerollDone_loading | ].
  split; [ apply prerollDone_elsewhere | ].
  pose proof (run_balanced dec inputs h) as Hrun.
  split; [ exact Hrun | ].
  intros Hnone. rewrite Hnone in Hrun.
  unfold prerollPending in *.
  destruct (PlaybackState_eqb (playbackState h) loading); lia.
Qed.

Lemma preroll_completes_once_witness :
  let h := stateOf (processAudioChunks decoder [(chunk, 0); (chunk, 0.25)]
                      (set_playbackState loading initial)) in
  let timers := [(TimerFired PrerollDone, 2.5); (OnMessage
                   {| setupComplete := false; filteredPrompt := None;
                      audioChunks := [(chunk, 2.6)] |}, 2.6);
                 (TimerFired PrerollDone, 2.75)] in
  playbackState h = loading
  /\ count isLoadingEvent (actionsOf (run decoder timers h)) = 0%nat
  /\ (count isPlayingEvent (actionsOf (run decoder timers h)) <= 1)%nat
  /\ List.filter isPlayingEvent (actionsOf (run decoder timers h))
     = [DispatchEvent (PlaybackStateChanged playing)].
Proof.
  intros h timers.
  assert (Hnone : count isLoadingEvent (actionsOf (run decoder timers h)) = 0%nat)
    by reflexivity.
  destruct (preroll_completes_once decoder timers h) as (_ & _ & _ & Honce).
  split; [ reflexivity | split; [ exact Hnone | split; [ | reflexivity ] ] ].
  destruct (Honce Hnone) as [Hle Hone]. lia.
Defined.

(** ** The budget of reconnection attempts *)

(** A completed handshake gives the full budget back: whatever the counter
    was, the lost connections after a [setupComplete] message are retried
    with the delays of a fresh sequence, five times at most. *)
Theorem handshake_resets_backoff
    (dec : string -> option AudioBuffer) (h : Helper) (t : Q) (times : list Q)
    (Htrying : isTryingToConnectOrPlay h = true)
    (Hactive : activePrompts h <> []) :
  let ready := {| setupComplete := true; filteredPrompt := None; audioChunks := [] |} in
  let r := run dec ((OnMessage ready, t) :: lostConnections times) h in
  reconnectAttempts (stateOf (onmessage dec ready h)) = 0%Z
  /\ retryDelays (actionsOf r)
     = map (fun n => inject_Z (Z.min (1000 * 2 ^ n) 8000))
         (firstn (length times) [1; 2; 3; 4; 5]%Z)
  /\ count isOpenSession (actionsOf r) = Nat.min (length times) 5.
Proof.
  intros ready r. split; [ reflexivity | ].
  subst r. rewrite actionsOf_run_cons.
  assert (Hmsg : step dec (OnMessage ready) t h = (tt, set_reconnectAttempts 0 h, []))
    by reflexivity.
  rewrite Hmsg. cbn [stateOf actionsOf fst snd app].
  destruct (lostConnections_from dec times 0 (set_reconnectAttempts 0 h)
              (Nat.le_0_l 5) Htrying eq_refl Hactive)
    as (Hdelays & Hopen & _).
  split; [ | exact Hopen ].
  rewrite Hdelays.
  change [1; 2; 3; 4; 5]%Z with (map Z.of_nat (seq 1 (5 - 0))).
  rewrite firstn_map, map_map. reflexivity.
Qed.

Lemma handshake_resets_backoff_witness :
  let h := set_reconnectAttempts 5 wanted in
  let ready := {| setupComplete := true; filteredPrompt := None; audioChunks := [] |} in
  retryDelays (actionsOf (run decoder (lostConnections [0; 1]) h)) = []
  /\ retryDelays (actionsOf (run decoder ((OnMessage ready, 0) :: lostConnections [0; 1]) h))
     = map inject_Z [2000; 4000]%Z.
Proof.
  intros h ready.
  assert (Hactive : activePrompts h <> []) by (vm_compute; discriminate).
  destruct (handshake_resets_backoff decoder h 0 [0; 1] eq_refl Hactive)
    as (_ & Hdelays & _).
  split; [ reflexivity | exact Hdelays ].
Defined.

#[local] Instance budgetStep_reflexive : Reflexive budgetStep.
Proof. intros x Hx. exact Hx. Qed.

#[local] Instance budgetStep_transitive : Transitive budgetStep.
Proof. intros x y z Hxy Hyz Hx. apply Hyz, Hxy, Hx. Qed.

Lemma Keeps_eq_weaken {X A : Type} (f : Helper -> X) (R : relation X)
    `{!Reflexive R} (m : M A) :
  Keeps f eq m -> Keeps f R m.
Proof. intros Hm h. rewrite <- (Hm h). reflexivity. Qed.

(** Unfolds the methods down to the statements of the monad. *)
Ltac unfold_methods :=
  unfold play_resumed, play_failed, playPause, timerFired, retryPlay, prerollDone,
    onerror, onclose, play, pause, stop, stopRecording, startRecording, recorderStopped,
    setWeightedPrompts, flushWeightedPrompts, sendWeightedPrompts, setPlaybackRate,
    scheduleBuffer, resynchronize, preroll, setPlaybackState, connect,
    Throttle.call, Throttle.fire, dispatchEvent, setTimeout.

Lemma handleDisconnection_budget now :
  Keeps reconnectAttempts budgetStep (handleDisconnection now).
Proof.
  intros h Hh. unfold withinBudget, maxReconnectAttempts in *.
  destruct (isTryingToConnectOrPlay h) eqn:Htrying.
  - destruct (Z.ltb_spec (reconnectAttempts h) maxReconnectAttempts) as [Hlt | Hge].
    + rewrite (handleDisconnection_retry now h Htrying Hlt).
      cbn. unfold maxReconnectAttempts in Hlt. lia.
    + rewrite (handleDisconnection_gives_up now h Htrying Hge). cbn. exact Hh.
  - rewrite (handleDisconnection_idle now h Htrying). cbn. exact Hh.
Qed.

Lemma processAudioChunks_attempts dec chunks :
  Keeps reconnectAttempts eq (processAudioChunks dec chunks).
Proof.
  induction chunks as [ | [chunk now] rest IH]; simpl; [ keeps | ].
  apply Keeps_bind; [ exact _ | | intros [ | ]; [ exact IH | keeps ] ].
  unfold processAudioChunk. unfold_methods. keeps.
Qed.

Lemma onmessage_budget dec e : Keeps reconnectAttempts budgetStep (onmessage dec e).
Proof.
  unfold onmessage.
  apply Keeps_bind; [ exact _ | | intros _ ].
  - destruct (setupComplete e); [ | apply Keeps_skip; exact _ ].
    intros h _. cbn. unfold withinBudget, maxReconnectAttempts. lia.
  - apply Keeps_eq_weaken; [ exact _ | ].
    apply Keeps_bind; [ exact _ | | intros _; apply processAudioChunks_attempts ].
    unfold_methods. keeps.
Qed.

Lemma step_budget dec i now : Keeps reconnectAttempts budgetStep (step dec i now).
Proof.
  destruct i; cbn [step];
    try apply handleDisconnection_budget;
    try (apply Keeps_bind; order_goal;
         [ apply onmessage_budget | apply Keeps_skip; exact _ ]);
    (apply Keeps_eq_weaken; [ exact _ | ]); unfold_methods; keeps.
Qed.

(** The attempt counter never leaves its budget: from a helper whose
    counter is between 0 and [maxReconnectAttempts], no sequence of calls,
    session callbacks, continuations and timers takes it outside. *)
Theorem attempts_stay_within_budget
    (dec : string -> option AudioBuffer) (inputs : list (Input * Q)) (h : Helper)
    (Hbudget : withinBudget (reconnectAttempts h)) :
  withinBudget (reconnectAttempts (stateOf (run dec inputs h))).
Proof.
  revert h Hbudget. induction inputs as [ | [i now] rest IH]; intros h Hbudget;
    [ exact Hbudget | ].
  rewrite stateOf_run_cons. apply IH. now apply step_budget.
Qed.

Lemma attempts_stay_within_budget_witness :
  withinBudget (reconnectAttempts initial)
  /\ withinBudget
       (reconnectAttempts
          (stateOf (run decoder ((CallPlay, 0) :: lostConnections [1; 2; 3; 4; 5; 6; 7])
                      wanted))).
Proof.
  assert (Hinit : withinBudget (reconnectAttempts initial))
    by (unfold withinBudget, maxReconnectAttempts; simpl; lia).
  assert (Hwanted : withinBudget (reconnectAttempts wanted)) by exact Hinit.
  split; [ exact Hinit | ].
  apply attempts_stay_within_budget. exact Hwanted.
Defined.

(** ** Active prompts *)

Lemma activePrompts_In (h : Helper) (p : Prompt) :
  In p (activePrompts h)
  <-> In p (values (prompts h)) /\ (text p ∉ filteredPrompts h) /\ 0 < weight p.
Proof.
  unfold activePrompts. rewrite List.filter_In, andb_true_iff, negb_true_iff.
  rewrite bool_decide_eq_false, Qltb_lt. tauto.
Qed.

Lemma onmessage_prompts dec e : Keeps prompts eq (onmessage dec e).
Proof.
  unfold onmessage.
  assert (Hchunks : forall chunks, Keeps prompts eq (processAudioChunks dec chunks)).
  { induction chunks as [ | [chunk now] rest IH]; simpl; [ keeps | ].
    apply Keeps_bind; [ exact _ | | intros [ | ]; [ exact IH | keeps ] ].
    unfold processAudioChunk. unfold_methods. keeps. }
  unfold_methods. keeps.
Qed.

Lemma onmessage_adds_filtered dec ready t reason chunks (h : Helper) :
  filteredPrompts
    (stateOf (onmessage dec (mkServerMessage ready (Some (t, reason)) chunks) h))
  = filteredPrompts h ∪ {[ t ]}.
Proof.
  unfold onmessage. simpl. rewrite !stateOf_bind.
  rewrite <- (processAudioChunks_filtered dec chunks _).
  destruct ready; reflexivity.
Qed.

(** A filtered-prompt notice silences the prompts with the filtered text,
    and only those: the active prompts after the message are the active
    prompts before it without the ones whose text is the filtered one. *)
Theorem filtered_notice_silences_text
    (dec : string -> option AudioBuffer) (ready : bool) (t reason : string)
    (chunks : list (AudioChunk * Q)) (h : Helper) :
  let e := {| setupComplete := ready; filteredPrompt := Some (t, reason);
              audioChunks := chunks |} in
  activePrompts (stateOf (onmessage dec e h))
  = List.filter (fun p => negb (String.eqb (text p) t)) (activePrompts h).
Proof.
  intros e. unfold activePrompts.
  rewrite <- (onmessage_prompts dec e h).
  unfold e. rewrite onmessage_adds_filtered.
  induction (values (prompts h)) as [ | p ps IH]; [ reflexivity | ].
  cbn [List.filter].
  assert (Hmember : bool_decide (text p ∈ filteredPrompts h ∪ {[ t ]})
                    = bool_decide (text p ∈ filteredPrompts h) || String.eqb (text p) t).
  { destruct (String.eqb_spec (text p) t) as [Heq | Hne].
    - rewrite orb_true_r. apply bool_decide_eq_true. set_solver.
    - rewrite orb_false_r. apply bool_decide_ext. set_solver. }
  rewrite Hmember.
  destruct (bool_decide (text p ∈ filteredPrompts h));
    destruct (String.eqb (text p) t) eqn:Heq;
    destruct (Qltb 0 (weight p));
    cbn [negb orb andb List.filter]; rewrite ?Heq; cbn [negb];
    rewrite ?IH; reflexivity.
Qed.

(** ** Starting, cancelling, toggling *)

Lemma play_accepted (h : Helper) :
  activePrompts h <> [] ->
  play h
  = (PlayAwaitsSession,
     set_playbackState loading (set_isTryingToConnectOrPlay true h),
     [DispatchEvent (PlaybackStateChanged loading); OpenSession]).
Proof.
  intros Hactive. unfold play, setPlaybackState, connect. run_method.
  change (activePrompts (set_isTryingToConnectOrPlay true h)) with (activePrompts h).
  destruct (activePrompts h); [ contradiction | reflexivity ].
Qed.

Lemma play_rejected (h : Helper) :
  activePrompts h = [] ->
  play h = (PlayRejected, set_isTryingToConnectOrPlay false h,
            [DispatchEvent (ErrorEvent NoActivePrompt)]).
Proof.
  intros Hnone. unfold play. run_method.
  change (activePrompts (set_isTryingToConnectOrPlay true h)) with (activePrompts h).
  now rewrite Hnone.
Qed.

(** [play] asks for a session exactly when some prompt is active, and then
    for one session only, with the state set to [loading] and the helper
    marked as wanting to be connected. *)
Theorem play_opens_session_iff_active (h : Helper) :
  (In OpenSession (actionsOf (play h)) <-> activePrompts h <> [])
  /\ count isOpenSession (actionsOf (play h))
     = match activePrompts h with [] => 0%nat | _ :: _ => 1%nat end
  /\ (activePrompts h <> [] ->
      playbackState (stateOf (play h)) = loading
      /\ isTryingToConnectOrPlay (stateOf (play h)) = true).
Proof.
  destruct (activePrompts h) as [ | p ps] eqn:Hactive.
  - rewrite (play_rejected h Hactive). cbn.
    repeat split; try tauto. intros [Habs | []]. discriminate.
  - assert (Hne : activePrompts h <> []) by (rewrite Hactive; discriminate).
    rewrite (play_accepted h Hne). cbn.
    repeat split; try discriminate; tauto.
Qed.

Lemma play_opens_session_iff_active_witness :
  actionsOf (play wanted) = [DispatchEvent (PlaybackStateChanged loading); OpenSession]
  /\ playbackState (stateOf (play wanted)) = loading.
Proof.
  assert (Hactive : activePrompts wanted <> []) by (vm_compute; discriminate).
  destruct (play_opens_session_iff_active wanted) as (_ & _ & Hstate).
  split; [ reflexivity | apply (Hstate Hactive) ].
Defined.

Lemma stop_actions (now : Q) (h : Helper) :
  actionsOf (stop now h)
  = (if isRecording h && mediaRecorder h then [RecorderStop] else [])
    ++ match session h with Some s => [SessionStop s] | None => [] end
    ++ [DispatchEvent (PlaybackStateChanged stopped); OutputGainSetValueAtTime 0 now].
Proof.
  unfold stop, stopRecording, setPlaybackState. run_method.
  destruct (isRecording h); simpl;
    [ destruct (mediaRecorder h); simpl | ];
    destruct (session h); reflexivity.
Qed.

Lemma pause_actions (now : Q) (h : Helper) :
  actionsOf (pause now h)
  = (if isRecording h && mediaRecorder h then [RecorderStop] else [])
    ++ match session h with Some s => [SessionPause s] | None => [] end
    ++ [DispatchEvent (PlaybackStateChanged paused);
        OutputGainLinearRampToValueAtTime 0 (now + 0.1)].
Proof.
  unfold pause, stopRecording, setPlaybackState. run_method.
  destruct (isRecording h); simpl;
    [ destruct (mediaRecorder h); simpl | ];
    destruct (session h); reflexivity.
Qed.

(** A [stop] issued while [play] is still waiting for its session cancels
    the start: when the session arrives, the continuation of [play] stops
    and releases it at once instead of starting playback, and the helper
    ends [stopped] without a session. *)
Theorem stop_cancels_pending_play
    (dec : string -> option AudioBuffer) (h : Helper) (s : Session) (t1 t2 t3 : Q)
    (Hactive : activePrompts h <> []) :
  let r := run dec [(CallPlay, t1); (CallStop, t2); (SessionOpened s, t3)] h in
  playbackState (stateOf r) = stopped
  /\ session (stateOf r) = None
  /\ isTryingToConnectOrPlay (stateOf r) = false
  /\ In (SessionStop s) (actionsOf r)
  /\ ~ In (SessionPlay s) (actionsOf r).
Proof.
  intros r. subst r.
  rewrite !stateOf_run_cons, !actionsOf_run_cons. cbn [step run].
  rewrite !stateOf_bind, !actionsOf_bind.
  rewrite (play_accepted h Hactive). cbn [stateOf actionsOf valueOf fst snd skip ret].
  set (h1 := set_playbackState loading (set_isTryingToConnectOrPlay true h)).
  destruct (stop_leaves t2 h1) as (_ & _ & _ & Htrying).
  set (h2 := stateOf (stop t2 h1)) in *.
  assert (Hresumed : play_resumed s t3 h2 = stop t3 (set_session (Some s) h2)).
  { unfold play_resumed, bind, gets, modify. cbn [fst snd].
    change (isTryingToConnectOrPlay (set_session (Some s) h2))
      with (isTryingToConnectOrPlay h2).
    rewrite Htrying. cbn [negb app].
    now destruct (stop t3 (set_session (Some s) h2)) as [[[] g] acts]. }
  rewrite Hresumed.
  destruct (stop_leaves t3 (set_session (Some s) h2)) as (Hst & Hnone & _ & Hflag).
  split; [ exact Hst | ]. split; [ exact Hnone | ]. split; [ exact Hflag | ].
  rewrite !stop_actions. cbn [session set_session].
  split.
  - rewrite !in_app_iff. cbn [In]. tauto.
  - rewrite !in_app_iff. cbn [In].
    destruct (isRecording h1 && mediaRecorder h1), (session h1),
      (isRecording (set_session (Some s) h2) && mediaRecorder (set_session (Some s) h2));
      cbn [In]; intros Habs;
      repeat (destruct Habs as [Habs | Habs]; try discriminate Habs; try contradiction).
Qed.

Lemma stop_cancels_pending_play_witness :
  let r := run decoder [(CallPlay, 0); (CallStop, 1); (SessionOpened 1%nat, 2)] wanted in
  playbackState (stateOf r) = stopped /\ In (SessionStop 1%nat) (actionsOf r).
Proof.
  assert (Hactive : activePrompts wanted <> []) by (vm_compute; discriminate).
  destruct (stop_cancels_pending_play decoder wanted 1%nat 0 1 2 Hactive)
    as (Hst & _ & _ & Hin & _).
  split; [ exact Hst | exact Hin ].
Defined.

(** [playPause] moves [playing] to [paused] and cancels a [loading] helper
    to [stopped]; from [paused] or [stopped] it starts loading if a prompt
    is active and otherwise leaves the state where it was. *)
Theorem playPause_transitions (now : Q) (h : Helper) :
  playbackState (stateOf (playPause now h))
  = match playbackState h with
    | playing => paused
    | loading => stopped
    | paused | stopped =>
        match activePrompts h with
        | [] => playbackState h
        | _ :: _ => loading
        end
    end.
Proof.
  unfold playPause. rewrite stateOf_bind. cbn [gets valueOf stateOf fst snd].
  destruct (playbackState h) eqn:Hst.
  - rewrite stateOf_bind. cbn [skip ret stateOf fst snd].
    destruct (activePrompts h) as [ | p ps] eqn:Hactive.
    + now rewrite (play_rejected h Hactive).
    + rewrite play_accepted by (rewrite Hactive; discriminate). reflexivity.
  - apply pause_leaves.
  - apply stop_leaves.
  - rewrite stateOf_bind. cbn [skip ret stateOf fst snd].
    destruct (activePrompts h) as [ | p ps] eqn:Hactive.
    + now rewrite (play_rejected h Hactive).
    + rewrite play_accepted by (rewrite Hactive; discriminate). reflexivity.
Qed.

(** ** Recording *)

(** A recording started while playing is ended by [stopRecording], and also
    by [pause] and by [stop]; when the recorder reports its end, the helper
    announces the finished recording with the texts of the active prompts
    and is ready to record again. *)
Theorem recording_round_trip (now : Q) (h : Helper)
    (Hplaying : playbackState h = playing) (Hidle : isRecording h = false) :
  let h1 := stateOf (startRecording h) in
  isRecording h1 = true
  /\ actionsOf (stopRecording h1) = [RecorderStop]
  /\ In RecorderStop (actionsOf (pause now h1))
  /\ In RecorderStop (actionsOf (stop now h1))
  /\ recorderStopped h1
     = (tt, set_isRecording false h1,
        [DispatchEvent (RecordingFinished (map text (activePrompts h)));
         DispatchEvent (RecordingStateChanged false)])
  /\ actionsOf (startRecording (set_isRecording false h1))
     = [CreateRecorder; RecorderStart; DispatchEvent (RecordingStateChanged true)].
Proof.
  intros h1. subst h1. rewrite (startRecording_starts h Hidle Hplaying).
  cbn [stateOf fst snd].
  split; [ reflexivity | ]. split; [ reflexivity | ].
  split; [ rewrite pause_actions; cbn; tauto | ].
  split; [ rewrite stop_actions; cbn; tauto | ].
  split; [ reflexivity | ].
  rewrite startRecording_starts by (cbn; assumption || reflexivity). reflexivity.
Qed.

Lemma recording_round_trip_witness :
  let h := set_playbackState playing wanted in
  playbackState h = playing /\ isRecording h = false
  /\ isRecording (stateOf (startRecording h)) = true
  /\ In RecorderStop (actionsOf (pause 3 (stateOf (startRecording h)))).
Proof.
  intros h.
  destruct (recording_round_trip 3 h eq_refl eq_refl) as (Hrec & _ & Hpause & _).
  split; [ reflexivity | split; [ reflexivity | split; [ exact Hrec | exact Hpause ] ] ].
Defined.

(** ** The schedule only moves forward while playing *)

(** While playing, ingesting chunks never moves [nextStartTime] back, and
    every buffer actually scheduled moves it forward. *)
Theorem nextStartTime_advances
    (dec : string -> option AudioBuffer) (chunks : list (AudioChunk * Q)) (h : Helper)
    (Hplaying : playbackState h = playing) :
  let r := processAudioChunks dec chunks h in
  nextStartTime h <= nextStartTime (stateOf r)
  /\ (scheduledStarts (actionsOf r) <> [] -> nextStartTime h < nextStartTime (stateOf r)).
Proof.
  revert h Hplaying. induction chunks as [ | [chunk now] rest IH]; intros h Hst r; subst r.
  - split; [ apply Qle_refl | intros Habs; now contradiction Habs ].
  - cbn [processAudioChunks]. rewrite stateOf_bind, actionsOf_bind, scheduledStarts_app.
    destruct (processAudioChunk_playing dec chunk now h Hst) as [-> | [-> | [b ->]]].
    + cbn [stateOf actionsOf valueOf fst snd scheduledStarts flat_map app].
      apply (IH h Hst).
    + cbn. split; [ apply Qle_refl | intros Habs; now contradiction Habs ].
    + rewrite (scheduleBuffer_playing b now h Hst).
      cbn [stateOf actionsOf valueOf fst snd].
      set (start := if fallenBehind h now then now + 0.1 else nextStartTime h).
      destruct (IH (set_nextStartTime (start + duration b) h) Hst) as [Hle _].
      cbn [nextStartTime set_nextStartTime] in Hle.
      pose proof (duration_pos b) as Hpos.
      assert (Hstart : nextStartTime h <= start).
      { unfold start. destruct (fallenBehind h now) eqn:Hbehind.
        - apply Qltb_lt in Hbehind. lra.
        - apply Qle_refl. }
      split; [ lra | intros _; lra ].
Qed.

Lemma nextStartTime_advances_witness :
  let h := set_nextStartTime 10 (set_playbackState playing initial) in
  let r := processAudioChunks decoder [(chunk, 10); (chunk, 10.25)] h in
  playbackState h = playing /\ nextStartTime h < nextStartTime (stateOf r).
Proof.
  intros h r.
  destruct (nextStartTime_advances decoder [(chunk, 10); (chunk, 10.25)] h eq_refl)
    as [_ Hlt].
  split; [ reflexivity | apply Hlt; vm_compute; discriminate ].
Defined.

(** ** A decode that is rejected *)

Lemma processAudioChunk_rejected dec (chunk : AudioChunk) (now : Q) (bytes : string)
    (h : Helper) :
  playbackState h = playing \/ playbackState h = loading ->
  truthy (data chunk) = Some bytes -> dec bytes = None ->
  processAudioChunk dec chunk now h = (Rejected, h, []).
Proof.
  intros Hst Hdata Hrejected. unfold processAudioChunk, bind, gets. cbn [fst snd].
  rewrite Hdata, Hrejected. destruct Hst as [-> | ->]; reflexivity.
Qed.

Lemma processAudioChunk_state dec chunk now :
  Keeps playbackState eq (processAudioChunk dec chunk now).
Proof. unfold processAudioChunk. unfold_methods. keeps. Qed.

Lemma processAudioChunks_rejected dec (before after : list (AudioChunk * Q))
    (chunk : AudioChunk) (now : Q) (bytes : string) :
  truthy (data chunk) = Some bytes -> dec bytes = None ->
  forall h, playbackState h = playing \/ playbackState h = loading ->
    processAudioChunks dec (before ++ (chunk, now) :: after) h
    = (Rejected, stateOf (processAudioChunks dec before h),
       actionsOf (processAudioChunks dec before h)).
Proof.
  intros Hdata Hrejected.
  induction before as [ | [c0 t0] rest IH]; intros h Hst.
  - cbn [app processAudioChunks]. unfold bind.
    now rewrite (processAudioChunk_rejected dec chunk now bytes h Hst Hdata Hrejected).
  - cbn [app processAudioChunks].
    pose proof (processAudioChunk_state dec c0 t0 h) as Hkeep.
    unfold bind, stateOf, actionsOf in *.
    destruct (processAudioChunk dec c0 t0 h) as [[c h1] a1]. cbn [fst snd] in *.
    destruct c; [ | reflexivity ].
    rewrite IH by (rewrite <- Hkeep; exact Hst).
    destruct (processAudioChunks dec rest h1) as [[c2 h2] a2]. reflexivity.
Qed.

(** A decode that is rejected ends the handling of the message: the chunks
    before it are scheduled as usual, and neither the rejected chunk nor any
    chunk after it in the same message schedules anything or changes the
    state; the callback ends rejected. *)
Theorem rejected_decode_ends_batch
    (dec : string -> option AudioBuffer) (before after : list (AudioChunk * Q))
    (chunk : AudioChunk) (now : Q) (bytes : string)
    (ready : bool) (notice : option (string * string)) (h : Helper)
    (Hstate : playbackState h = playing \/ playbackState h = loading)
    (Hdata : truthy (data chunk) = Some bytes)
    (Hrejected : dec bytes = None) :
  let message chunks :=
    {| setupComplete := ready; filteredPrompt := notice; audioChunks := chunks |} in
  processAudioChunks dec (before ++ (chunk, now) :: after) h
  = (Rejected, stateOf (processAudioChunks dec before h),
     actionsOf (processAudioChunks dec before h))
  /\ onmessage dec (message (before ++ (chunk, now) :: after)) h
     = (Rejected, stateOf (onmessage dec (message before) h),
        actionsOf (onmessage dec (message before) h)).
Proof.
  intros message.
  split; [ now apply (processAudioChunks_rejected dec before after chunk now bytes) | ].
  unfold onmessage, message. cbn [setupComplete filteredPrompt audioChunks].
  set (notify := match notice with
                 | Some (t, reason) =>
                     old <- gets filteredPrompts ;;
                     modify (set_filteredPrompts (old ∪ {[ t ]})) ;;
                     dispatchEvent (FilteredPromptEvent t reason)
                 | None => skip
                 end).
  set (reset := when ready (modify (set_reconnectAttempts 0))).
  assert (Hreset : Keeps playbackState eq reset) by (subst reset; keeps).
  assert (Hnotify : Keeps playbackState eq notify)
    by (subst notify; unfold dispatchEvent; keeps).
  specialize (Hreset h). specialize (Hnotify (stateOf (reset h))).
  unfold bind, stateOf, actionsOf in *.
  destruct (reset h) as [[u1 h1] a1]. cbn [fst snd] in *.
  destruct (notify h1) as [[u2 h2] a2]. cbn [fst snd] in *.
  pose proof (processAudioChunks_rejected dec before after chunk now bytes
                Hdata Hrejected h2) as Hbatch.
  unfold stateOf, actionsOf in Hbatch.
  rewrite Hbatch by (rewrite <- Hnotify, <- Hreset; exact Hstate).
  destruct (processAudioChunks dec before h2) as [[c3 h3] a3]. reflexivity.
Qed.

Lemma rejected_decode_ends_batch_witness :
  let h := set_nextStartTime 10 (set_playbackState playing initial) in
  let message chunks :=
    {| setupComplete := false; filteredPrompt := None; audioChunks := chunks |} in
  strict "UklG" = None
  /\ scheduledStarts
       (actionsOf (onmessage strict (message [(chunk, 10); (garbled, 10.25); (chunk, 10.5)]) h))
     = [(10, duration twoSeconds)]
  /\ valueOf (onmessage strict (message [(chunk, 10); (garbled, 10.25); (chunk, 10.5)]) h)
     = Rejected.
Proof.
  intros h message.
  assert (Hrejected : strict "UklG" = None) by reflexivity.
  destruct (rejected_decode_ends_batch strict [(chunk, 10)] [(chunk, 10.5)] garbled 10.25
              "UklG" false None h (or_introl eq_refl) eq_refl Hrejected) as [_ Hmsg].
  split; [ exact Hrejected | ].
  subst message. cbv beta zeta in Hmsg |- *. cbn [app] in Hmsg. rewrite Hmsg.
  split; reflexivity.
Defined.

End LiveMusicHelperFacts.

(** * Properties of sequences of effect calls *)

Section EffectsSessionFacts.
Import AudioEffects EffectsSession.
Local Open Scope R_scope.

Lemma rewireAll_app (c1 c2 : list Call) (g : Graph) :
  rewireAll (c1 ++ c2) g
  = match rewireAll c1 g with
    | Some g' => rewireAll c2 g'
    | None => None
    end.
Proof.
  revert g. induction c1 as [ | c rest IH]; intros g; [ reflexivity | ].
  cbn [app rewireAll]. destruct (rewire c g); [ apply IH | reflexivity ].
Qed.

Lemma runningOscillators_app (c1 c2 : list Call) :
  runningOscillators (c1 ++ c2) = (runningOscillators c1 + runningOscillators c2)%Z.
Proof.
  induction c1 as [ | c rest IH]; [ reflexivity | ].
  destruct c; cbn [app runningOscillators]; rewrite IH; lia.
Qed.

Lemma perform_routed (op : Op) (now : R) (st : State) (g : Graph) :
  Routed st g ->
  exists g', rewireAll (snd (perform op st now)) g = Some g'
             /\ Routed (fst (perform op st now)) g'.
Proof.
  intros (Hif & Him & Hmf & Hll & Hlfo).
  destruct op as [v | b | b | v | v | v | v | v | v]; cbn [perform];
    try (exists g; split; [ reflexivity | now repeat split ]).
  - unfold setPan. destruct (is8DEnabled st) eqn:H8; cbn [fst snd];
      (exists g; split; [ reflexivity | unfold Routed; repeat split; congruence ]).
  - unfold setMono.
    destruct b, (isMono st) eqn:Hm; cbn [Bool.eqb fst snd];
      try (exists g; split; [ reflexivity | unfold Routed; repeat split; congruence ]).
    + eexists. split; [ reflexivity | ].
      unfold Routed. cbn. repeat split; congruence.
    + cbn [monoMergerInputs Nat.ltb Nat.leb app rewireAll rewire].
      cbn [Node_eqb negb andb]. rewrite Hmf.
      eexists. split; [ reflexivity | ].
      unfold Routed. cbn. repeat split; congruence.
  - unfold toggle8D.
    destruct b, (is8DEnabled st) eqn:H8; cbn [Bool.eqb fst snd];
      try (exists g; split; [ reflexivity | unfold Routed; repeat split; congruence ]).
    + rewrite Hlfo. cbn [app rewireAll rewire].
      eexists. split; [ reflexivity | ].
      unfold Routed. cbn. repeat split; congruence.
    + rewrite Hlfo. cbn [app rewireAll rewire].
      eexists. split; [ reflexivity | ].
      unfold Routed. cbn. repeat split; congruence.
Qed.

Lemma performAll_routed (ops : list (Op * R)) :
  forall st g,
    Routed st g ->
    exists g', rewireAll (snd (performAll ops st)) g = Some g'
               /\ Routed (fst (performAll ops st)) g'.
Proof.
  induction ops as [ | [op now] rest IH]; intros st g Hrouted.
  - exists g. now split.
  - cbn [performAll].
    destruct (perform_routed op now st g Hrouted) as (g1 & Hg1 & Hr1).
    destruct (perform op st now) as [st1 calls1]. cbn [fst snd] in *.
    destruct (IH st1 g1 Hr1) as (g2 & Hg2 & Hr2).
    destruct (performAll rest st1) as [st2 calls2]. cbn [fst snd] in *.
    exists g2. split; [ | exact Hr2 ].
    now rewrite rewireAll_app, Hg1.
Qed.

(** Whatever methods of the effects graph are called, in whatever order,
    the rewiring of [setMono] never asks the platform to remove a connection
    that does not exist, and the input reaches the filter by exactly one
    route: directly when stereo, through the mono merger when mono. *)
Theorem mono_switch_keeps_one_route (ops : list (Op * R)) (rate : R) :
  let st := fst (performAll ops (initial rate)) in
  exists g, rewireAll (snd (performAll ops (initial rate))) constructed = Some g
            /\ g Input Filter = negb (isMono st)
            /\ g Input MonoMerger = isMono st
            /\ g MonoMerger Filter = isMono st.
Proof.
  intros st. subst st.
  assert (Hinit : Routed (initial rate) constructed) by (repeat split).
  destruct (performAll_routed ops (initial rate) constructed Hinit)
    as (g & Hg & Hif & Him & Hmf & _).
  exists g. now repeat split.
Qed.

Lemma perform_oscillators (op : Op) (now : R) (st : State) :
  lfo st = is8DEnabled st ->
  lfo (fst (perform op st now)) = is8DEnabled (fst (perform op st now))
  /\ (runningOscillators (snd (perform op st now))
      = Z.b2z (is8DEnabled (fst (perform op st now))) - Z.b2z (is8DEnabled st))%Z.
Proof.
  intros Hlfo.
  destruct op as [v | b | b | v | v | v | v | v | v]; cbn [perform];
    try (split; [ exact Hlfo | cbn; lia ]).
  - unfold setPan. destruct (is8DEnabled st) eqn:H8; cbn [fst snd];
      rewrite ?H8; (split; [ exact Hlfo | cbn; lia ]).
  - unfold setMono.
    destruct b, (isMono st); cbn; (split; [ exact Hlfo | lia ]).
  - unfold toggle8D.
    destruct b, (is8DEnabled st) eqn:H8; cbn [Bool.eqb fst snd]; rewrite ?H8, ?Hlfo;
      (split; [ reflexivity || exact Hlfo | cbn; lia ]).
Qed.

(** The rotation oscillator is a single resource: after any sequence of
    calls there is exactly one oscillator started and not stopped while the
    8D effect is on, and none while it is off. *)
Theorem one_oscillator_while_rotating (ops : list (Op * R)) (rate : R) :
  let r := performAll ops (initial rate) in
  lfo (fst r) = is8DEnabled (fst r)
  /\ runningOscillators (snd r) = (if is8DEnabled (fst r) then 1 else 0)%Z.
Proof.
  intros r. subst r.
  assert (Hgen : forall st, lfo st = is8DEnabled st ->
            lfo (fst (performAll ops st)) = is8DEnabled (fst (performAll ops st))
            /\ (runningOscillators (snd (performAll ops st))
                = Z.b2z (is8DEnabled (fst (performAll ops st)))
                  - Z.b2z (is8DEnabled st))%Z).
  { induction ops as [ | [op now] rest IH]; intros st Hlfo.
    - split; [ exact Hlfo | cbn; lia ].
    - cbn [performAll].
      destruct (perform_oscillators op now st Hlfo) as [Hlfo1 Hrun1].
      destruct (perform op st now) as [st1 calls1]. cbn [fst snd] in *.
      destruct (IH st1 Hlfo1) as [Hlfo2 Hrun2].
      destruct (performAll rest st1) as [st2 calls2]. cbn [fst snd] in *.
      split; [ exact Hlfo2 | ]. rewrite runningOscillators_app. lia. }
  destruct (Hgen (initial rate) eq_refl) as [Hlfo Hrun].
  split; [ exact Hlfo | ]. rewrite Hrun. cbn.
  destruct (is8DEnabled (fst (performAll ops (initial rate)))); reflexivity.
Qed.

Lemma toggle8D_flag (b : bool) (st : State) (now : R) :
  is8DEnabled (fst (toggle8D b st now)) = b.
Proof.
  unfold toggle8D. destruct b, (is8DEnabled st) eqn:H8; cbn; congruence.
Qed.

Lemma setMono_flag (b : bool) (st : State) (now : R) :
  isMono (fst (setMono b st now)) = b.
Proof.
  unfold setMono. destruct b, (isMono st) eqn:Hm; cbn; congruence.
Qed.

(** The two switches are idempotent, and the rotation owns the pan: asking
    again for the setting just made makes no platform call and leaves the
    state alone, and [setPan] does nothing once the 8D effect has been
    turned on. *)
Theorem switches_are_idempotent (st : State) (now later pan : R) (b : bool) :
  toggle8D b (fst (toggle8D b st now)) later = (fst (toggle8D b st now), [])
  /\ setMono b (fst (setMono b st now)) later = (fst (setMono b st now), [])
  /\ setPan pan (fst (toggle8D true st now)) later = (fst (toggle8D true st now), []).
Proof.
  split; [ | split ].
  - unfold toggle8D at 1. now rewrite toggle8D_flag, Bool.eqb_reflx.
  - unfold setMono at 1. now rewrite setMono_flag, Bool.eqb_reflx.
  - unfold setPan. now rewrite toggle8D_flag.
Qed.

(** For a slider value in [[0, 1]] and a sample rate of at least 80 Hz, the
    cutoff frequency lies between 40 Hz and the Nyquist frequency, and it
    grows with the slider value. *)
Theorem cutoff_stays_below_nyquist (rate v w : R)
    (Hrate : 80 <= rate) (Hv : 0 <= v) (Hvw : v <= w) (Hw : w <= 1) :
  40 <= cutoffFrequency rate v
  /\ cutoffFrequency rate v <= cutoffFrequency rate w
  /\ cutoffFrequency rate w <= rate / 2.
Proof.
  unfold cutoffFrequency, Math_pow. cbv zeta.
  assert (Hbase : 1 <= rate / 2 / 40) by lra.
  assert (Hpos : 0 < rate / 2 / 40) by lra.
  pose proof (Rle_Rpower (rate / 2 / 40) 0 v Hbase Hv) as H0v.
  pose proof (Rle_Rpower (rate / 2 / 40) v w Hbase Hvw) as Hvw'.
  pose proof (Rle_Rpower (rate / 2 / 40) w 1 Hbase Hw) as Hw1.
  rewrite (Rpower_O _ Hpos) in H0v. rewrite (Rpower_1 _ Hpos) in Hw1.
  repeat split; lra.
Qed.

Lemma cutoff_stays_below_nyquist_witness :
  40 <= cutoffFrequency 48000 (1 / 4)
  /\ cutoffFrequency 48000 (1 / 4) <= cutoffFrequency 48000 (3 / 4)
  /\ cutoffFrequency 48000 (3 / 4) <= 48000 / 2.
Proof.
  apply (cutoff_stays_below_nyquist 48000 (1 / 4) (3 / 4)); lra.
Defined.

Lemma Math_pow_le_1 (base decay : R) :
  0 < base <= 1 -> 0 <= decay -> Math_pow base decay <= 1.
Proof.
  intros [Hpos Hle] Hdecay. unfold Math_pow, Rpower.
  assert (Hln : ln base <= 0).
  { destruct Hle as [Hlt | ->]; [ | rewrite ln_1; lra ].
    left. rewrite <- ln_1. now apply ln_increasing. }
  assert (Hprod : decay * ln base <= 0) by nra.
  destruct Hprod as [Hlt | Heq].
  - left. rewrite <- exp_0. now apply exp_increasing.
  - rewrite Heq, exp_0. lra.
Qed.

(** Every sample of a synthesized impulse response is bounded by the decay
    envelope [(1 - i / N) ^ decay], and so lies between -1 and 1: for the
    two channels and every index below the number of samples, with the
    random source ranging over [[0, 1)] and a decay that is not negative. *)
Theorem impulse_within_envelope
    (random : nat -> nat -> R) (rate duration decay : R) (c i : nat)
    (Hrandom : forall c i, 0 <= random c i < 1)
    (Hdecay : 0 <= decay)
    (Hchannel : (c < 2)%nat) (Hindex : INR i < rate * duration) :
  exists sample,
    createReverbImpulse random rate duration decay c i = Some sample
    /\ Rabs sample <= Math_pow (1 - INR i / (rate * duration)) decay
    /\ -1 <= sample <= 1.
Proof.
  unfold createReverbImpulse. cbv zeta.
  apply Nat.ltb_lt in Hchannel. rewrite Hchannel.
  destruct (Rlt_dec (INR i) (rate * duration)) as [_ | Habs]; [ | contradiction ].
  eexists. split; [ reflexivity | ].
  unfold impulseSample.
  pose proof (pos_INR i) as Hi.
  assert (HN : 0 < rate * duration) by lra.
  assert (Hbase : 0 < 1 - INR i / (rate * duration) <= 1).
  { assert (Hq : 0 <= INR i / (rate * duration) < 1).
    { split.
      - apply Rmult_le_pos; [ exact Hi | left; now apply Rinv_0_lt_compat ].
      - apply (Rmult_lt_reg_r (rate * duration)); [ exact HN | ].
        unfold Rdiv. rewrite Rmult_assoc, Rinv_l by lra. lra. }
    lra. }
  pose proof (Math_pow_le_1 _ decay Hbase Hdecay) as Hle.
  pose proof (Math_pow_pos (1 - INR i / (rate * duration)) decay) as Hpos.
  destruct (Hrandom c i) as [Hr0 Hr1].
  set (e := Math_pow (1 - INR i / (rate * duration)) decay) in *.
  assert (Habs : Rabs ((random c i * 2 - 1) * e) <= e).
  { rewrite Rabs_mult, (Rabs_right e) by lra.
    assert (Hu : Rabs (random c i * 2 - 1) <= 1) by (apply Rabs_le; lra).
    nra. }
  split; [ exact Habs | ].
  revert Habs. unfold Rabs. destruct (Rcase_abs _); intros Habs; lra.
Qed.

Lemma impulse_within_envelope_witness :
  exists sample,
    createReverbImpulse (fun _ _ => 3 / 4) 48000 2 2 1 0 = Some sample
    /\ -1 <= sample <= 1.
Proof.
  destruct (impulse_within_envelope (fun _ _ => 3 / 4) 48000 2 2 1 0)
    as (sample & Hs & _ & Hrange); try (simpl; lra); try lia.
  - intros _ _. lra.
  - exists sample. split; [ exact Hs | exact Hrange ].
Defined.

End EffectsSessionFacts.

(** * Properties of the performance pad *)

Section FxPadFacts.
Import AudioEffects FxPad.
Local Open Scope R_scope.

Lemma unit_range (v : R) : 0 <= unit v <= 1.
Proof.
  unfold unit. split.
  - apply Rmax_l.
  - apply Rmax_lub; [ lra | apply Rmin_l ].
Qed.

Lemma unit_inside (v : R) : 0 <= v <= 1 -> unit v = v.
Proof.
  intros [H0 H1]. unfold unit.
  rewrite Rmin_right by exact H1. now rewrite Rmax_right.
Qed.

Lemma deliver_inSquare (g : Gesture) (pad : Pad) :
  inSquare pad ->
  inSquare (fst (deliver g pad))
  /\ Forall (fun e => 0 <= detailX e <= 1 /\ 0 <= detailY e <= 1) (snd (deliver g pad)).
Proof.
  intros Hpad. unfold inSquare in *.
  destruct g as [[r | ] cx cy | cx cy | | ]; cbn [deliver].
  - cbn. pose proof (unit_range ((cx - left r) / width r)).
    pose proof (unit_range (1 - (cy - top r) / height r)).
    split; [ tauto | constructor; [ cbn; tauto | constructor ] ].
  - cbn. split; [ exact Hpad | constructor ].
  - destruct (listening pad); [ | split; [ exact Hpad | constructor ] ].
    unfold handlePointerMove.
    destruct (boundRect pad) as [r | ]; [ | split; [ exact Hpad | constructor ] ].
    cbn. pose proof (unit_range ((cx - left r) / width r)).
    pose proof (unit_range (1 - (cy - top r) / height r)).
    split; [ tauto | constructor; [ cbn; tauto | constructor ] ].
  - destruct (listening pad); cbn; (split; [ exact Hpad | constructor ]).
  - cbn. split; [ lra | constructor; [ cbn; lra | constructor ] ].
Qed.

(** Whatever the pointer does, the pad stays in the unit square: after any
    sequence of gestures over rectangles of positive size the position has
    both coordinates between 0 and 1, and so has every ['fx-changed'] event
    dispatched on the way.  (With exact numbers a rectangle of size 0 would
    do no harm; in JavaScript it makes the quotient NaN.) *)
Theorem pad_stays_in_unit_square (gs : list Gesture)
    (Hsized : Forall wellSized gs) :
  let r := deliverAll gs initial in
  (0 <= x (fst r) <= 1 /\ 0 <= y (fst r) <= 1)
  /\ Forall (fun e => 0 <= detailX e <= 1 /\ 0 <= detailY e <= 1) (snd r).
Proof.
  intros r. subst r. clear Hsized.
  assert (Hgen : forall pad, inSquare pad ->
            inSquare (fst (deliverAll gs pad))
            /\ Forall (fun e => 0 <= detailX e <= 1 /\ 0 <= detailY e <= 1)
                 (snd (deliverAll gs pad))).
  { induction gs as [ | g rest IH]; intros pad Hpad.
    - split; [ exact Hpad | constructor ].
    - cbn [deliverAll].
      destruct (deliver_inSquare g pad Hpad) as [Hpad1 Hev1].
      destruct (deliver g pad) as [pad1 events1]. cbn [fst snd] in *.
      destruct (IH pad1 Hpad1) as [Hpad2 Hev2].
      destruct (deliverAll rest pad1) as [pad2 events2]. cbn [fst snd] in *.
      split; [ exact Hpad2 | ]. apply Forall_app. now split. }
  apply Hgen. unfold inSquare. cbn. lra.
Qed.

Lemma pad_stays_in_unit_square_witness :
  let rect := {| left := 100; top := 50; width := 200; height := 100 |} in
  let gs := [PointerDown (Some rect) 150 75; PointerMove 400 (-20); PointerUp;
             PointerMove 0 0; DoubleClick] in
  Forall wellSized gs
  /\ Forall (fun e => 0 <= detailX e <= 1 /\ 0 <= detailY e <= 1)
       (snd (deliverAll gs initial)).
Proof.
  intros rect gs.
  assert (Hsized : Forall wellSized gs).
  { repeat (constructor; [ cbn; try lra; exact I | ]). constructor. }
  split; [ exact Hsized | apply (pad_stays_in_unit_square gs Hsized) ].
Defined.

(** Inside the pad the puck is drawn under the pointer: for a rectangle of
    positive size and a pointer within it, the position [render] gives the
    puck, taken as a percentage of the rectangle, is the pointer's own, and
    the event carries the pointer's relative position (Y upwards). *)
Theorem puck_follows_pointer (rect : DOMRect) (clientX clientY : R) (pad : Pad)
    (Hwidth : 0 < width rect) (Hheight : 0 < height rect)
    (HinX : left rect <= clientX <= left rect + width rect)
    (HinY : top rect <= clientY <= top rect + height rect) :
  let r := handlePointerDown (Some rect) clientX clientY pad in
  left rect + puckLeft (fst r) / 100 * width rect = clientX
  /\ top rect + puckTop (fst r) / 100 * height rect = clientY
  /\ snd r = [{| detailX := (clientX - left rect) / width rect;
                 detailY := 1 - (clientY - top rect) / height rect |}].
Proof.
  intros r. subst r. unfold handlePointerDown, updatePosition, puckLeft, puckTop.
  cbn [fst snd x y].
  assert (Hx : 0 <= (clientX - left rect) / width rect <= 1).
  { split.
    - apply Rmult_le_pos; [ lra | left; now apply Rinv_0_lt_compat ].
    - apply (Rmult_le_reg_r (width rect)); [ exact Hwidth | ].
      unfold Rdiv. rewrite Rmult_assoc, Rinv_l by lra. lra. }
  assert (Hy : 0 <= (clientY - top rect) / height rect <= 1).
  { split.
    - apply Rmult_le_pos; [ lra | left; now apply Rinv_0_lt_compat ].
    - apply (Rmult_le_reg_r (height rect)); [ exact Hheight | ].
      unfold Rdiv. rewrite Rmult_assoc, Rinv_l by lra. lra. }
  unfold positionX, positionY.
  rewrite !unit_inside by lra.
  split; [ field; lra | split; [ field; lra | reflexivity ] ].
Qed.

Lemma puck_follows_pointer_witness :
  let rect := {| left := 100; top := 50; width := 200; height := 100 |} in
  snd (handlePointerDown (Some rect) 150 75 initial)
  = [{| detailX := (150 - 100) / 200; detailY := 1 - (75 - 50) / 100 |}].
Proof.
  intros rect.
  destruct (puck_follows_pointer rect 150 75 initial) as (_ & _ & Hev);
    try (cbn; lra).
  exact Hev.
Defined.

Lemma deliverAll_events_in_square (gs : list Gesture) :
  forall pad, inSquare pad ->
    Forall (fun e => 0 <= detailX e <= 1 /\ 0 <= detailY e <= 1) (snd (deliverAll gs pad)).
Proof.
  induction gs as [ | g rest IH]; intros pad Hpad; [ constructor | ].
  cbn [deliverAll].
  destruct (deliver_inSquare g pad Hpad) as [Hpad1 Hev1].
  destruct (deliver g pad) as [pad1 events1]. cbn [fst snd] in *.
  specialize (IH pad1 Hpad1).
  destruct (deliverAll rest pad1) as [pad2 events2]. cbn [fst snd] in *.
  apply Forall_app. now split.
Qed.

Lemma cutoffFrequency_bounds (rate v : R) :
  80 <= rate -> 0 <= v <= 1 -> 40 <= cutoffFrequency rate v <= rate / 2.
Proof.
  intros Hrate [Hv0 Hv1]. unfold cutoffFrequency, Math_pow. cbv zeta.
  assert (Hbase : 1 <= rate / 2 / 40) by lra.
  assert (Hpos : 0 < rate / 2 / 40) by lra.
  pose proof (Rle_Rpower (rate / 2 / 40) 0 v Hbase Hv0) as Hlow.
  pose proof (Rle_Rpower (rate / 2 / 40) v 1 Hbase Hv1) as Hhigh.
  rewrite (Rpower_O _ Hpos) in Hlow. rewrite (Rpower_1 _ Hpos) in Hhigh.
  split; lra.
Qed.

(** The pad cannot drive the effects out of range: every event of every
    gesture sequence, handed to [handlePerfFxChange], sets the filter to a
    frequency between 40 Hz and Nyquist and the delay mix to a value
    between 0 and 1, although the setters themselves do not clamp. *)
Theorem pad_keeps_effects_in_range
    (gs : list Gesture) (st : AudioEffects.State) (now : R)
    (Hsized : Forall wellSized gs) (Hrate : 80 <= sampleRate st) :
  Forall (fun e => fst (handlePerfFxChange e st now) = st
                   /\ Forall (inRange (sampleRate st)) (snd (handlePerfFxChange e st now)))
    (snd (deliverAll gs initial)).
Proof.
  assert (Hinit : inSquare initial) by (unfold inSquare; cbn; lra).
  pose proof (deliverAll_events_in_square gs initial Hinit) as Hevents.
  eapply Forall_impl; [ exact Hevents | ].
  intros e [Hx Hy]. cbn in Hx, Hy |- *.
  split; [ reflexivity | ].
  constructor; [ | constructor; [ exact Hy | constructor ] ].
  cbn. now apply cutoffFrequency_bounds.
Qed.

Lemma pad_keeps_effects_in_range_witness :
  let rect := {| left := 100; top := 50; width := 200; height := 100 |} in
  let gs := [PointerDown (Some rect) 150 75; PointerMove 400 (-20)] in
  let st := AudioEffects.initial 48000 in
  Forall (fun e => Forall (inRange 48000) (snd (handlePerfFxChange e st 0)))
    (snd (deliverAll gs initial)).
Proof.
  intros rect gs st.
  assert (Hsized : Forall wellSized gs).
  { repeat (constructor; [ cbn; try lra; exact I | ]). constructor. }
  assert (Hrate : 80 <= sampleRate st) by (cbn; lra).
  eapply Forall_impl; [ exact (pad_keeps_effects_in_range gs st 0 Hsized Hrate) | ].
  intros e [_ He]. exact He.
Defined.

End FxPadFacts.

(** * Properties of the effects window *)

Section FxWindowFacts.
Import FxWindow.
Local Open Scope R_scope.

Lemma handle_inStep (a : Action) (now : R) (w : Window) :
  inStep w -> inStep (fst (handle a w now)).
Proof.
  intros [Hmono H8]. unfold inStep.
  destruct a as [p value | p]; cbn [handle].
  - destruct p; cbn; try (split; assumption).
    unfold AudioEffects.setPan.
    destruct (AudioEffects.is8DEnabled (effects w)) eqn:He; cbn;
      (split; [ assumption | congruence ]).
  - destruct p; cbn [handleFxToggle].
    + unfold AudioEffects.setMono. rewrite <- Hmono.
      destruct (isMono (audioFxState w)); cbn; split; (reflexivity || assumption).
    + unfold AudioEffects.toggle8D, AudioEffects.setPan. rewrite <- H8.
      destruct (is8D (audioFxState w)); cbn; split; (reflexivity || assumption).
Qed.

(** The window and the effects graph stay in step: after any sequence of
    slider moves and button presses, the mono and 8D flags the window shows
    are the flags of the effects graph; so whenever the window shows 8D on,
    moving the pan slider reaches no audio parameter. *)
Theorem window_mirrors_effects (actions : list (Action * R)) (rate : R) :
  let w := fst (handleAll actions (initial rate)) in
  isMono (audioFxState w) = AudioEffects.isMono (effects w)
  /\ is8D (audioFxState w) = AudioEffects.is8DEnabled (effects w)
  /\ (is8D (audioFxState w) = true ->
      forall value now, snd (handle (Slide Pan value) w now) = []).
Proof.
  intros w.
  enough (Hstep : inStep w).
  { destruct Hstep as [Hmono H8]. split; [ exact Hmono | split; [ exact H8 | ] ].
    intros Hon value now. cbn. unfold AudioEffects.setPan.
    rewrite <- H8, Hon. reflexivity. }
  subst w.
  assert (Hgen : forall w, inStep w -> inStep (fst (handleAll actions w))).
  { induction actions as [ | [a now] rest IH]; intros w Hw; [ exact Hw | ].
    cbn [handleAll].
    pose proof (handle_inStep a now w Hw) as Hw1.
    destruct (handle a w now) as [w1 calls1]. cbn [fst] in Hw1.
    specialize (IH w1 Hw1).
    destruct (handleAll rest w1) as [w2 calls2]. exact IH. }
  apply (Hgen (initial rate)). split; reflexivity.
Qed.

End FxWindowFacts.

(** * Properties of a track of the mixer *)

Section PromptControllerFacts.
Import PromptController.
Local Open Scope Q_scope.

(** A control-change message for the controller a track is bound to sets
    the weight to [value / 127 * 2], which for a MIDI value between 0 and
    127 lies between 0 and 2 (0 at 0, 2 at 127), and announces the change;
    a message for any other controller changes and announces nothing. *)
Theorem cc_message_sets_weight (m other : ControlChange) (c : Controller)
    (Hvalue : (0 <= ccValue m <= 127)%Z)
    (Hbound : ccNumber m = cc (prompt c))
    (Hother : ccNumber other <> cc (prompt c))
    (Hlearn : learnMode c = false) :
  let r := onCcMessage m c in
  weight (prompt (fst r)) = inject_Z (ccValue m) / 127 * 2
  /\ 0 <= weight (prompt (fst r)) <= 2
  /\ 0 <= fillPercent (fst r) <= 100
  /\ (ccValue m = 0%Z -> weight (prompt (fst r)) == 0)
  /\ (ccValue m = 127%Z -> weight (prompt (fst r)) == 2)
  /\ cc (prompt (fst r)) = cc (prompt c)
  /\ snd r = [PromptChanged (prompt (fst r))]
  /\ onCcMessage other c = (c, []).
Proof.
  intros r. subst r. unfold onCcMessage. rewrite Hlearn.
  apply Z.eqb_eq in Hbound. rewrite Hbound.
  apply Z.eqb_neq in Hother. rewrite Hother.
  unfold fillPercent.
  cbn [fst snd prompt withWeight weight cc dispatchPromptChange].
  assert (Hq : 0 <= inject_Z (ccValue m) <= 127).
  { split.
    - change 0 with (inject_Z 0). rewrite <- Zle_Qle. lia.
    - change 127 with (inject_Z 127). rewrite <- Zle_Qle. lia. }
  split; [ reflexivity | ].
  unfold Qdiv. change (/ 127) with (1 # 127). change (/ 2) with (1 # 2).
  split; [ lra | ].
  split; [ lra | ].
  split; [ intros ->; reflexivity | ].
  split; [ intros ->; reflexivity | ].
  repeat split.
Qed.

Lemma cc_message_sets_weight_witness :
  let c := {| prompt := {| promptId := "prompt-3"; text := "Techno"; weight := 0; cc := 3;
                           color := "#f1c40f"; category := "Electronic Genre" |};
              channel := 0; filtered := false; learnMode := false; showCC := true;
              audioLevel := 0 |} in
  let m := {| ccChannel := 0; ccNumber := 3; ccValue := 127 |} in
  weight (prompt (fst (onCcMessage m c))) == 2
  /\ onCcMessage {| ccChannel := 0; ccNumber := 4; ccValue := 64 |} c = (c, []).
Proof.
  intros c m.
  destruct (cc_message_sets_weight m {| ccChannel := 0; ccNumber := 4; ccValue := 64 |} c)
    as (_ & _ & _ & _ & Hmax & _ & _ & Hignored);
    try reflexivity; try (cbn; lia).
  split; [ apply Hmax; reflexivity | exact Hignored ].
Defined.

(** Learning binds the track to the next controller that moves: with learn
    mode switched on, the first control-change message only makes its
    controller and channel the track's own, leaves the weight alone and
    ends learn mode; from then on that controller sets the weight. *)
Theorem learn_binds_next_controller (first later : ControlChange) (c : Controller)
    (Hoff : learnMode c = false)
    (Hsame : ccNumber later = ccNumber first) :
  let bound := fst (onCcMessage first (toggleLearnMode c)) in
  cc (prompt bound) = ccNumber first
  /\ channel bound = ccChannel first
  /\ learnMode bound = false
  /\ weight (prompt bound) = weight (prompt c)
  /\ snd (onCcMessage first (toggleLearnMode c)) = [PromptChanged (prompt bound)]
  /\ weight (prompt (fst (onCcMessage later bound))) = inject_Z (ccValue later) / 127 * 2.
Proof.
  intros bound. subst bound. unfold toggleLearnMode, onCcMessage.
  cbn [learnMode]. rewrite Hoff. cbn [negb fst snd prompt withCc cc channel learnMode weight].
  rewrite Hsame, Z.eqb_refl. repeat split.
Qed.

Lemma learn_binds_next_controller_witness :
  let c := {| prompt := {| promptId := "prompt-3"; text := "Techno"; weight := 1; cc := 3;
                           color := "#f1c40f"; category := "Electronic Genre" |};
              channel := 0; filtered := false; learnMode := false; showCC := true;
              audioLevel := 0 |} in
  let first := {| ccChannel := 2; ccNumber := 74; ccValue := 10 |} in
  let later := {| ccChannel := 2; ccNumber := 74; ccValue := 127 |} in
  cc (prompt (fst (onCcMessage first (toggleLearnMode c)))) = 74%Z
  /\ weight (prompt (fst (onCcMessage later (fst (onCcMessage first (toggleLearnMode c))))))
     == 2.
Proof.
  intros c first later.
  destruct (learn_binds_next_controller first later c eq_refl eq_refl)
    as (Hcc & _ & _ & _ & _ & Hweight).
  split; [ exact Hcc | rewrite Hweight; reflexivity ].
Defined.

End PromptControllerFacts.

(** * Properties of the prompts the main component keeps and sends *)

Section PromptDjMidiFacts.
Import PromptController PromptDjMidi MixerSamples.
Local Open Scope Q_scope.

Lemma get_set_eq {V : Type} (k : string) (v : V) (m : JsMap.t V) :
  JsMap.get k (JsMap.set k v m) = Some v.
Proof.
  induction m as [ | [k' v'] rest IH]; cbn.
  - now rewrite String.eqb_refl.
  - destruct (String.eqb k' k) eqn:Hk; cbn; now rewrite Hk.
Qed.

Lemma get_set_ne {V : Type} (k k' : string) (v : V) (m : JsMap.t V) :
  k <> k' -> JsMap.get k' (JsMap.set k v m) = JsMap.get k' m.
Proof.
  intros Hne. induction m as [ | [k0 v0] rest IH]; cbn.
  - destruct (String.eqb_spec k k'); [ contradiction | reflexivity ].
  - destruct (String.eqb_spec k0 k) as [-> | Hk0]; cbn.
    + destruct (String.eqb_spec k k'); [ contradiction | reflexivity ].
    + destruct (String.eqb k0 k'); [ reflexivity | exact IH ].
Qed.

Lemma In_set {V : Type} (k k' : string) (v v' : V) (m : JsMap.t V) :
  In (k', v') (JsMap.set k v m) -> (k' = k /\ v' = v) \/ In (k', v') m.
Proof.
  induction m as [ | [k0 v0] rest IH]; cbn.
  - intros [[= <- <-] | []]. now left.
  - destruct (String.eqb_spec k0 k) as [-> | Hk0]; cbn.
    + intros [[= <- <-] | Hin]; [ now left | right; now right ].
    + intros [Heq | Hin]; [ right; now left | ].
      destruct (IH Hin) as [Hnew | Hold]; [ now left | right; now right ].
Qed.

Lemma keys_set {V : Type} (k : string) (v : V) (m : JsMap.t V) :
  JsMap.keys (JsMap.set k v m)
  = if existsb (String.eqb k) (JsMap.keys m) then JsMap.keys m else JsMap.keys m ++ [k].
Proof.
  induction m as [ | [k0 v0] rest IH]; [ reflexivity | ].
  cbn. rewrite (String.eqb_sym k k0).
  destruct (String.eqb k0 k) eqn:Hk; cbn; [ reflexivity | ].
  unfold JsMap.keys in IH. rewrite IH.
  now destruct (existsb (String.eqb k) (map fst rest)).
Qed.

Lemma existsb_eqb_In (k : string) (l : list string) :
  existsb (String.eqb k) l = true <-> In k l.
Proof.
  rewrite existsb_exists. split.
  - intros (x & Hin & Heq). apply String.eqb_eq in Heq. now subst.
  - intros Hin. exists k. split; [ exact Hin | apply String.eqb_refl ].
Qed.

Lemma keys_set_NoDup {V : Type} (k : string) (v : V) (m : JsMap.t V) :
  NoDup (JsMap.keys m) -> NoDup (JsMap.keys (JsMap.set k v m)).
Proof.
  intros Hm. rewrite keys_set.
  destruct (existsb (String.eqb k) (JsMap.keys m)) eqn:Hk; [ exact Hm | ].
  apply NoDup_app. split; [ exact Hm | split; [ | apply NoDup_singleton ] ].
  intros x Hx Hxk. apply list_elem_of_In in Hx, Hxk.
  destruct Hxk as [<- | []].
  apply existsb_eqb_In in Hx. congruence.
Qed.

(** What an entry of the payload owes to the prompts of the component. *)
Lemma payload_fold (all : JsMap.t Prompt) (ids : list string) :
  forall (seen : list string) (acc : JsMap.t Prompt),
    (forall id p, In (id, p) acc ->
       In id seen /\ JsMap.get id all = Some p /\ 0 < weight p) ->
    NoDup (JsMap.keys acc) ->
    let payload :=
      fold_left
        (fun toSend id =>
           match JsMap.get id all with
           | Some p =>
               if LiveMusicHelper.Qltb 0 (weight p) then JsMap.set id p toSend else toSend
           | None => toSend
           end) ids acc in
    (forall id p, In (id, p) payload ->
       In id (seen ++ ids) /\ JsMap.get id all = Some p /\ 0 < weight p)
    /\ NoDup (JsMap.keys payload).
Proof.
  induction ids as [ | id0 rest IH]; intros seen acc Hacc Hnodup payload; subst payload.
  - cbn. rewrite app_nil_r. now split.
  - cbn [fold_left].
    replace (seen ++ id0 :: rest) with ((seen ++ [id0]) ++ rest)
      by now rewrite <- app_assoc.
    apply IH.
    + intros id p Hin.
      destruct (JsMap.get id0 all) as [p0 | ] eqn:Hget.
      * destruct (LiveMusicHelper.Qltb 0 (weight p0)) eqn:Hw.
        -- apply In_set in Hin. destruct Hin as [[-> ->] | Hin].
           ++ split; [ apply in_or_app; right; now left | ].
              split; [ exact Hget | ].
              unfold LiveMusicHelper.Qltb in Hw. now apply Z.ltb_lt in Hw.
           ++ destruct (Hacc id p Hin) as (Hs & Hg & Hp).
              split; [ apply in_or_app; now left | now split ].
        -- destruct (Hacc id p Hin) as (Hs & Hg & Hp).
           split; [ apply in_or_app; now left | now split ].
      * destruct (Hacc id p Hin) as (Hs & Hg & Hp).
        split; [ apply in_or_app; now left | now split ].
    + destruct (JsMap.get id0 all) as [p0 | ]; [ | exact Hnodup ].
      destruct (LiveMusicHelper.Qltb 0 (weight p0)); [ | exact Hnodup ].
      now apply keys_set_NoDup.
Qed.

Lemma promptsToSend_entries (u : Component) (id : string) (p : Prompt) :
  In (id, p) (promptsToSend u) ->
  0 < weight p
  /\ match LiveMusicHelper.truthy (previewingPromptId u) with
     | Some previewing =>
         id = previewing
         /\ exists q, JsMap.get previewing (allPrompts u) = Some q /\ p = withWeight 1 q
     | None => In id (activePromptIds u) /\ JsMap.get id (allPrompts u) = Some p
     end.
Proof.
  unfold promptsToSend.
  destruct (LiveMusicHelper.truthy (previewingPromptId u)) as [pv | ].
  - destruct (JsMap.get pv (allPrompts u)) as [q | ]; [ | intros [] ].
    cbn. intros [[= <- <-] | []].
    split; [ reflexivity | split; [ reflexivity | now exists q ] ].
  - intros Hin.
    destruct (payload_fold (allPrompts u) (activePromptIds u) [] [])
      as [Hentries _]; [ intros ? ? [] | constructor | ].
    destruct (Hentries id p Hin) as (Hs & Hg & Hp). now repeat split.
Qed.

Lemma promptsToSend_NoDup (u : Component) : NoDup (JsMap.keys (promptsToSend u)).
Proof.
  unfold promptsToSend.
  destruct (LiveMusicHelper.truthy (previewingPromptId u)) as [pv | ].
  - destruct (JsMap.get pv (allPrompts u)); cbn;
      [ apply NoDup_singleton | apply NoDup_nil_2 ].
  - apply (payload_fold (allPrompts u) (activePromptIds u) [] []);
      [ intros ? ? [] | constructor ].
Qed.

(** The payload of ['prompts-changed'] holds audible prompts only, each
    once: outside a preview every entry is an active track with its stored
    prompt and a positive weight; during a preview the only entry is the
    previewed prompt, at weight 1 whatever its stored weight. *)
Theorem payload_is_active_and_audible (u : Component) (id : string) (p : Prompt)
    (Hentry : In (id, p) (promptsToSend u)) :
  0 < weight p
  /\ NoDup (JsMap.keys (promptsToSend u))
  /\ match LiveMusicHelper.truthy (previewingPromptId u) with
     | Some previewing =>
         promptsToSend u = [(previewing, p)] /\ weight p = 1
     | None => In id (activePromptIds u) /\ JsMap.get id (allPrompts u) = Some p
     end.
Proof.
  destruct (promptsToSend_entries u id p Hentry) as [Hpos Hmode].
  split; [ exact Hpos | split; [ apply promptsToSend_NoDup | ] ].
  revert Hmode Hentry. unfold promptsToSend.
  destruct (LiveMusicHelper.truthy (previewingPromptId u)) as [pv | ]; [ | tauto ].
  intros (-> & q & Hq & ->) _. rewrite Hq. now split.
Qed.

Lemma payload_is_active_and_audible_witness :
  let u := fst (addPrompt "prompt-1" fresh) in
  In ("prompt-1", withWeight 0.5 bossa) (promptsToSend u)
  /\ 0 < weight (withWeight 0.5 bossa)
  /\ In "prompt-1" (activePromptIds u).
Proof.
  intros u.
  assert (Hentry : In ("prompt-1", withWeight 0.5 bossa) (promptsToSend u))
    by (left; reflexivity).
  destruct (payload_is_active_and_audible u "prompt-1" (withWeight 0.5 bossa) Hentry)
    as (Hpos & _ & Hactive).
  split; [ exact Hentry | split; [ exact Hpos | apply Hactive ] ].
Defined.

Lemma activePrompts_of_audible (payload : JsMap.t Prompt) (h : LiveMusicHelper.Helper) :
  (forall id p, In (id, p) payload -> 0 < weight p) ->
  LiveMusicHelper.activePrompts (LiveMusicHelper.set_prompts (toHelper payload) h)
  = List.filter
      (fun p => negb (bool_decide (LiveMusicHelper.text p ∈ LiveMusicHelper.filteredPrompts h)))
      (LiveMusicHelper.values (toHelper payload)).
Proof.
  intros Hpos. unfold LiveMusicHelper.activePrompts.
  cbn [LiveMusicHelper.prompts LiveMusicHelper.set_prompts
       LiveMusicHelper.filteredPrompts].
  induction payload as [ | [id p] rest IH]; [ reflexivity | ].
  cbn [toHelper map LiveMusicHelper.values fst snd List.filter].
  assert (Hw : LiveMusicHelper.Qltb 0 (LiveMusicHelper.weight (toWeighted p)) = true).
  { unfold LiveMusicHelper.Qltb. apply Z.ltb_lt. apply (Hpos id p). now left. }
  rewrite Hw, andb_true_r.
  unfold toHelper, LiveMusicHelper.values in IH.
  rewrite IH by (intros id' p' Hin; apply (Hpos id' p'); now right).
  reflexivity.
Qed.

(** Of a payload the main component dispatched, the helper sends on
    everything but the prompts whose text was filtered: its test of the
    weight removes nothing, because the payload holds no silent prompt. *)
Theorem helper_drops_only_filtered (u : Component) (h : LiveMusicHelper.Helper) :
  let payload := toHelper (promptsToSend u) in
  LiveMusicHelper.activePrompts (LiveMusicHelper.set_prompts payload h)
  = List.filter
      (fun p => negb (bool_decide (LiveMusicHelper.text p ∈ LiveMusicHelper.filteredPrompts h)))
      (LiveMusicHelper.values payload).
Proof.
  intros payload. subst payload. apply activePrompts_of_audible.
  intros id p Hin. now apply (promptsToSend_entries u id p).
Qed.

Lemma has_false (x : string) (l : JsSet.t) : JsSet.has x l = false <-> ~ In x l.
Proof.
  unfold JsSet.has. rewrite <- existsb_eqb_In. now destruct (existsb _ l).
Qed.

Lemma In_add (x y : string) (l : JsSet.t) : In x (JsSet.add y l) <-> x = y \/ In x l.
Proof.
  unfold JsSet.add. destruct (JsSet.has y l) eqn:Hy.
  - apply existsb_eqb_In in Hy. split; [ tauto | intros [-> | H]; assumption ].
  - rewrite in_app_iff. cbn. intuition congruence.
Qed.

Lemma delete_absent (x : string) (l : JsSet.t) : ~ In x l -> JsSet.delete x l = l.
Proof.
  intros Hx. unfold JsSet.delete. induction l as [ | y rest IH]; [ reflexivity | ].
  cbn. destruct (String.eqb_spec x y) as [-> | Hne]; cbn.
  - exfalso. apply Hx. now left.
  - f_equal. apply IH. intros Hin. apply Hx. now right.
Qed.

Lemma delete_add (x : string) (l : JsSet.t) :
  ~ In x l -> JsSet.delete x (JsSet.add x l) = l.
Proof.
  intros Hx. unfold JsSet.add.
  destruct (JsSet.has x l) eqn:Hhas; [ now apply delete_absent | ].
  unfold JsSet.delete. rewrite List.filter_app. cbn. rewrite String.eqb_refl. cbn.
  rewrite app_nil_r. now apply delete_absent.
Qed.

Lemma In_set_new {V : Type} (k : string) (v : V) (m : JsMap.t V) :
  In (k, v) (JsMap.set k v m).
Proof.
  induction m as [ | [k0 v0] rest IH]; cbn; [ now left | ].
  destruct (String.eqb_spec k0 k) as [-> | Hne]; [ now left | now right ].
Qed.

Lemma payload_fold_ext (all1 all2 : JsMap.t Prompt) (ids : list string) :
  (forall id, In id ids -> JsMap.get id all1 = JsMap.get id all2) ->
  forall acc,
    fold_left
      (fun toSend id =>
         match JsMap.get id all1 with
         | Some p =>
             if LiveMusicHelper.Qltb 0 (weight p) then JsMap.set id p toSend else toSend
         | None => toSend
         end) ids acc
    = fold_left
        (fun toSend id =>
           match JsMap.get id all2 with
           | Some p =>
               if LiveMusicHelper.Qltb 0 (weight p) then JsMap.set id p toSend else toSend
           | None => toSend
           end) ids acc.
Proof.
  induction ids as [ | id rest IH]; intros Hsame acc; [ reflexivity | ].
  cbn [fold_left]. rewrite (Hsame id) by now left.
  apply IH. intros id' Hin. apply Hsame. now right.
Qed.

(** Adding a track and removing it again leaves no trace in what is sent:
    for a known prompt that is not a track yet, and outside a preview,
    [addPrompt] puts it into the payload at weight 0.5, and the following
    [handlePromptRemoved] restores the set of tracks and the payload, the
    prompt being stored with weight 0. *)
Theorem add_then_remove_restores (id : string) (p : Prompt) (u : Component)
    (Hknown : JsMap.get id (allPrompts u) = Some p)
    (Hnew : JsSet.has id (activePromptIds u) = false)
    (Hnopreview : LiveMusicHelper.truthy (previewingPromptId u) = None) :
  let added := fst (addPrompt id u) in
  let removed := fst (handlePromptRemoved id added) in
  In (id, withWeight 0.5 p) (promptsToSend added)
  /\ activePromptIds removed = activePromptIds u
  /\ JsMap.get id (allPrompts removed) = Some (withWeight 0 p)
  /\ promptsToSend removed = promptsToSend u.
Proof.
  intros added removed.
  apply has_false in Hnew.
  assert (Hadded : added
                   = with_activePromptIds (JsSet.add id (activePromptIds u))
                       (with_allPrompts (JsMap.set id (withWeight 0.5 p) (allPrompts u)) u)).
  { subst added. unfold addPrompt. now rewrite Hnopreview, Hknown. }
  assert (Hremoved : removed
                     = with_activePromptIds (activePromptIds u)
                         (with_allPrompts
                            (JsMap.set id (withWeight 0 p)
                               (JsMap.set id (withWeight 0.5 p) (allPrompts u))) u)).
  { subst removed. rewrite Hadded. unfold handlePromptRemoved.
    cbn [allPrompts with_allPrompts with_activePromptIds activePromptIds fst
         dispatchPromptsChanged].
    rewrite get_set_eq.
    cbn [allPrompts with_allPrompts with_activePromptIds activePromptIds fst].
    now rewrite delete_add. }
  split.
  { rewrite Hadded. unfold promptsToSend.
    cbn [previewingPromptId with_allPrompts with_activePromptIds allPrompts
         activePromptIds].
    rewrite Hnopreview. unfold JsSet.add.
    replace (JsSet.has id (activePromptIds u)) with false
      by (symmetry; now apply has_false).
    rewrite fold_left_app. cbn [fold_left]. rewrite get_set_eq.
    cbn [weight withWeight]. apply In_set_new. }
  split; [ now rewrite Hremoved | ].
  split; [ rewrite Hremoved; cbn [allPrompts with_allPrompts with_activePromptIds];
           now rewrite get_set_eq | ].
  rewrite Hremoved. unfold promptsToSend.
  cbn [previewingPromptId with_allPrompts with_activePromptIds allPrompts activePromptIds].
  rewrite Hnopreview. apply payload_fold_ext.
  intros id' Hin.
  assert (Hne : id <> id') by (intros ->; contradiction).
  now rewrite !get_set_ne.
Qed.

Lemma add_then_remove_restores_witness :
  let added := fst (addPrompt "prompt-1" fresh) in
  let removed := fst (handlePromptRemoved "prompt-1" added) in
  promptsToSend added = [("prompt-1", withWeight 0.5 bossa)]
  /\ promptsToSend removed = promptsToSend fresh.
Proof.
  intros added removed.
  destruct (add_then_remove_restores "prompt-1" bossa fresh eq_refl eq_refl eq_refl)
    as (_ & _ & _ & Hsame).
  split; [ reflexivity | exact Hsame ].
Defined.

(** ** The beat plan *)

Lemma beatWeight_range (w : option Q) : 0 <= beatWeight w <= 2.
Proof.
  unfold beatWeight. cbv zeta.
  match goal with |- context [Qmin 2 ?g] => set (given := g) end.
  split.
  - apply Q.le_max_l.
  - apply Q.max_lub; [ lra | apply Q.le_min_l ].
Qed.

Lemma fold_left_invariant {A B : Type} (P : A -> Prop) (f : A -> B -> A) (l : list B) :
  forall init,
    P init -> (forall a x, In x l -> P a -> P (f a x)) -> P (fold_left f l init).
Proof.
  induction l as [ | x rest IH]; intros init Hinit Hstep; [ exact Hinit | ].
  cbn [fold_left]. apply IH.
  - apply Hstep; [ now left | exact Hinit ].
  - intros a y Hy. apply Hstep. now right.
Qed.

(** Clearing the tracks silences every one of them. *)
Lemma cleared_silent (ids : list string) (all : JsMap.t Prompt) :
  let cleared :=
    fold_left
      (fun all id =>
         match JsMap.get id all with
         | Some p => JsMap.set id (withWeight 0 p) all
         | None => all
         end) ids all in
  forall id p, In id ids -> JsMap.get id cleared = Some p -> weight p = 0.
Proof.
  intros cleared. subst cleared.
  assert (Hkeep : forall ids all id,
            (forall p, JsMap.get id all = Some p -> weight p = 0) ->
            forall p,
              JsMap.get id
                (fold_left
                   (fun all id =>
                      match JsMap.get id all with
                      | Some p => JsMap.set id (withWeight 0 p) all
                      | None => all
                      end) ids all) = Some p ->
              weight p = 0).
  { clear. induction ids as [ | id0 rest IH]; intros all id Hall p; [ apply Hall | ].
    cbn [fold_left]. apply IH. intros q.
    destruct (JsMap.get id0 all) as [p0 | ] eqn:Hget; [ | apply Hall ].
    destruct (String.eqb_spec id0 id) as [-> | Hne].
    - rewrite get_set_eq. now intros [= <-].
    - rewrite get_set_ne by exact Hne. apply Hall. }
  revert all. induction ids as [ | id0 rest IH]; intros all id p Hin; [ destruct Hin | ].
  cbn [fold_left]. destruct Hin as [-> | Hin]; [ | now apply IH ].
  apply Hkeep. intros q.
  destruct (JsMap.get id all) as [p0 | ] eqn:Hget; [ | congruence ].
  rewrite get_set_eq. now intros [= <-].
Qed.

(** After a beat plan has been applied, every track carries a weight
    between 0 and 2 and was named by the plan (through the index from text
    to id), and every former track the plan does not name is stored with
    weight 0. *)
Theorem beat_plan_weights_in_range (plan : list PlanEntry) (u : Component)
    (id : string) (p : Prompt)
    (Hstored : JsMap.get id (allPrompts (fst (applyBeatPlan plan u))) = Some p) :
  let u' := fst (applyBeatPlan plan u) in
  (In id (activePromptIds u') ->
   0 <= weight p <= 2
   /\ exists entry,
        In entry plan
        /\ LiveMusicHelper.truthy (JsMap.get (promptName entry) (textToIdMap u)) = Some id)
  /\ (In id (activePromptIds u) -> ~ In id (activePromptIds u') -> weight p = 0).
Proof.
  intros u'. subst u'. revert Hstored. unfold applyBeatPlan. cbv zeta.
  set (cleared := fold_left _ (activePromptIds u) (allPrompts u)).
  match goal with
  | |- context [fold_left ?f plan (cleared, [])] => set (step := f)
  end.
  pose (Inv := fun st : JsMap.t Prompt * JsSet.t =>
    (forall i q, In i (snd st) -> JsMap.get i (fst st) = Some q -> 0 <= weight q <= 2)
    /\ (forall i, ~ In i (snd st) -> JsMap.get i (fst st) = JsMap.get i cleared)
    /\ (forall i, In i (snd st) ->
          exists entry,
            In entry plan
            /\ LiveMusicHelper.truthy (JsMap.get (promptName entry) (textToIdMap u))
               = Some i)).
  assert (Hinv : Inv (fold_left step plan (cleared, []))).
  { apply fold_left_invariant.
    - split; [ | split ]; cbn; intros; try contradiction; reflexivity.
    - intros [all ids] entry Hentry (H1 & H2 & H3). subst step. cbn beta iota.
      cbn [fst snd] in H1, H2, H3.
      destruct (LiveMusicHelper.truthy (JsMap.get (promptName entry) (textToIdMap u)))
        as [id0 | ] eqn:Hid0; [ | exact (conj H1 (conj H2 H3)) ].
      split; [ | split ]; cbn [fst snd].
      + intros i q Hi Hq. apply In_add in Hi.
        destruct (String.eqb_spec id0 i) as [-> | Hne].
        * destruct (JsMap.get i all) as [p0 | ] eqn:Hget.
          -- rewrite get_set_eq in Hq. injection Hq as <-.
             cbn [weight withWeight]. apply beatWeight_range.
          -- congruence.
        * destruct Hi as [-> | Hi]; [ contradiction | ].
          apply (H1 i q Hi).
          destruct (JsMap.get id0 all); [ now rewrite get_set_ne in Hq | exact Hq ].
      + intros i Hi. rewrite In_add in Hi.
        assert (Hne : id0 <> i) by (intros ->; apply Hi; now left).
        rewrite <- H2 by tauto.
        destruct (JsMap.get id0 all); [ now rewrite get_set_ne | reflexivity ].
      + intros i Hi. apply In_add in Hi. destruct Hi as [-> | Hi].
        * now exists entry.
        * now apply H3. }
  destruct (fold_left step plan (cleared, [])) as [all ids].
  destruct Hinv as (H1 & H2 & H3). cbn [fst snd] in *.
  cbn [dispatchPromptsChanged fst allPrompts activePromptIds with_allPrompts
       with_activePromptIds].
  intros Hstored. split.
  - intros Hin. split; [ now apply (H1 id p) | now apply H3 ].
  - intros Hformer Hnot. rewrite (H2 id Hnot) in Hstored.
    now apply (cleared_silent (activePromptIds u) (allPrompts u) id p).
Qed.

Lemma beat_plan_weights_in_range_witness :
  let u := fst (addPrompt "prompt-0" fresh) in
  let plan := [{| promptName := "Bossa Nova"; planWeight := Some 5 |};
               {| promptName := "No such prompt"; planWeight := None |}] in
  let u' := fst (applyBeatPlan plan u) in
  activePromptIds u' = ["prompt-1"]
  /\ JsMap.get "prompt-1" (allPrompts u') = Some (withWeight (beatWeight (Some 5)) bossa)
  /\ 0 <= beatWeight (Some 5) <= 2
  /\ JsMap.get "prompt-0" (allPrompts u') = Some (withWeight 0 techno).
Proof.
  intros u plan u'.
  assert (Hstored : JsMap.get "prompt-1" (allPrompts (fst (applyBeatPlan plan u)))
                    = Some (withWeight (beatWeight (Some 5)) bossa)) by reflexivity.
  destruct (beat_plan_weights_in_range plan u "prompt-1" _ Hstored) as [Hrange _].
  destruct Hrange as [Hrange _]; [ left; reflexivity | ].
  split; [ reflexivity | split; [ exact Hstored | split; [ exact Hrange | reflexivity ] ] ].
Defined.

(** ** The name of the download *)

Lemma sanitize_kept (s : string) :
  forallb keptInFilename (list_ascii_of_string (sanitize s)) = true.
Proof.
  induction s as [ | c rest IH]; [ reflexivity | ].
  cbn [sanitize list_ascii_of_string forallb]. rewrite IH, andb_true_r.
  destruct (keptInFilename c) eqn:Hc; [ exact Hc | reflexivity ].
Qed.

Lemma sanitize_length (s : string) : String.length (sanitize s) = String.length s.
Proof. induction s as [ | c rest IH]; [ reflexivity | cbn; now rewrite IH ]. Qed.

Lemma sanitize_fixes_kept (s : string) :
  forallb keptInFilename (list_ascii_of_string s) = true -> sanitize s = s.
Proof.
  induction s as [ | c rest IH]; [ reflexivity | ].
  cbn [sanitize list_ascii_of_string forallb]. intros H.
  apply andb_true_iff in H. destruct H as [Hc Hrest].
  now rewrite Hc, IH.
Qed.

(** The name offered for a download is safe as a file name: whatever the
    texts of the prompts, it ends in [.webm] and before that consists of
    letters, digits, hyphens and underscores only, is never empty, and is
    [prompt-dj-beat] when there is no text to build it from; characters
    are replaced one for one, and a text that is safe already is kept. *)
Theorem download_name_is_safe (objectUrl : string) (prompts : list string) (u : Component) :
  let stem := filenameStem prompts in
  downloadFilename (setDownload objectUrl prompts u) = (stem ++ ".webm")%string
  /\ forallb keptInFilename (list_ascii_of_string stem) = true
  /\ stem <> EmptyString
  /\ (join prompts = EmptyString -> stem = "prompt-dj-beat"%string)
  /\ String.length (sanitize (join prompts)) = String.length (join prompts)
  /\ (forallb keptInFilename (list_ascii_of_string (join prompts)) = true ->
      join prompts <> EmptyString -> stem = join prompts).
Proof.
  intros stem. subst stem. unfold filenameStem. cbv zeta.
  split; [ reflexivity | ].
  pose proof (sanitize_kept (join prompts)) as Hkept.
  split; [ destruct (sanitize (join prompts)); [ reflexivity | exact Hkept ] | ].
  split; [ destruct (sanitize (join prompts)); discriminate | ].
  split; [ intros ->; reflexivity | ].
  split; [ apply sanitize_length | ].
  intros Hsafe Hne. rewrite (sanitize_fixes_kept _ Hsafe).
  destruct (join prompts); [ contradiction | reflexivity ].
Qed.

End PromptDjMidiFacts.
